(** * Notification inbox (notifications.go): storage, projection and handlers

    A shallow embedding of the notification inbox of the service.  Go
    strings are byte sequences and are modelled by [string] (a list of
    8-bit [ascii]); a Go result pair [(T, error)] is modelled by a pair
    [T * option error], where [None] is the nil error.  The package-level
    database handle [db] becomes an explicit store that every storage
    function receives and returns. *)

From Stdlib Require Import String Ascii List Bool Arith ZArith Lia.
Import ListNotations.

Local Open Scope list_scope.
Local Open Scope string_scope.

(** ** Errors *)

(** The error values that reach this file: the store's missing-key error,
    errors of the JSON codec, and any other failure of the store. *)
Inductive error : Type :=
| ErrKeyNotFound
| ErrJSON (msg : string)
| ErrStorage (msg : string).

(** [err.Error()] *)
Definition err_Error (e : error) : string :=
  match e with
  | ErrKeyNotFound => "Key not found"
  | ErrJSON msg => msg
  | ErrStorage msg => msg
  end.

(** Result of a library call that returns a value or an error. *)
Inductive result (A : Type) : Type :=
| Ok (a : A)
| Err (e : error).
Arguments Ok {A} a.
Arguments Err {A} e.

(** ** Data model *)

Record Notification : Type := mkNotification {
  ID : string;
  Actor : string;
  Object : string;
  Target : string;
  Updated : string
}.

(** [n.ID = new_id], the assignment to the field of a record. *)
Definition with_ID (new_id : string) (n : Notification) : Notification :=
  mkNotification new_id (Actor n) (Object n) (Target n) (Updated n).

(** [Notification{}], the zero value. *)
Definition Notification_zero : Notification := mkNotification "" "" "" "" "".

Record LDNInbox : Type := mkLDNInbox {
  inbox_Context : string;
  inbox_ID : string;
  inbox_Contains : list string
}.

Record LDNotification : Type := mkLDNotification {
  ldn_Context : string;
  ldn_ID : string;
  ldn_Type : string;
  ldn_Actor : string;
  ldn_Object : string;
  ldn_Target : string;
  ldn_Updated : string
}.

Definition maxResponseSize : nat := 128.

(** [make([]T, len, cap)]: a slice of [len] zero values.  The capacity is
    a preallocation size only; [append] grows a slice past it. *)
Definition make {A : Type} (zero : A) (len cap : nat) : list A := repeat zero len.

(** [append(s, x)] *)
Definition append {A : Type} (s : list A) (x : A) : list A := (s ++ [x])%list.

(** [ids[i] = x] on a slice; an index out of range panics in Go and is
    never reached by the loops below, the model leaves the slice as is. *)
Fixpoint set_index {A : Type} (s : list A) (i : nat) (x : A) : list A :=
  match s, i with
  | [], _ => []
  | _ :: t, O => x :: t
  | h :: t, S j => h :: set_index t j x
  end.

(** ** The ordered key-value store *)

Module badger.

(** A stored item: key and value bytes. *)
Definition Item : Type := (string * string)%type.

(** The store holds its items in ascending byte order of their keys. *)
Definition DB : Type := list Item.

Definition empty : DB := [].

(** [txn.Get(key)] *)
Fixpoint Get (key : string) (db : DB) : result string :=
  match db with
  | [] => Err ErrKeyNotFound
  | (k, v) :: rest => if String.eqb key k then Ok v else Get key rest
  end.

(** [txn.SetEntry(badger.NewEntry(key, val))]: the item takes its place
    in key order and replaces an item of the same key. *)
Fixpoint SetEntry (key val : string) (db : DB) : DB :=
  match db with
  | [] => [(key, val)]
  | (k, v) :: rest =>
    match String.compare key k with
    | Lt => (key, val) :: (k, v) :: rest
    | Eq => (key, val) :: rest
    | Gt => (k, v) :: SetEntry key val rest
    end
  end.

(** [it.Seek(prefix)]: the iterator is placed on the first item whose
    key is not smaller than [prefix]; the iterator is the list of the
    items from its position on. *)
Fixpoint Seek (prefix : string) (db : DB) : list Item :=
  match db with
  | [] => []
  | (k, v) :: rest =>
    if String.ltb k prefix then Seek prefix rest else (k, v) :: rest
  end.

(** [it.ValidForPrefix(prefix)] *)
Definition ValidForPrefix (prefix : string) (it : list Item) : bool :=
  match it with
  | [] => false
  | (k, _) :: _ => String.prefix prefix k
  end.

(** [it.Next()] *)
Definition Next (it : list Item) : list Item := tl it.

(** [db.View(fn)]: a read-only transaction; the store is as before. *)
Definition View {A : Type} (fn : DB -> A) (db : DB) : A * DB := (fn db, db).

(** [db.Update(fn)]: the writes of [fn] are committed when [fn] returns
    nil and the commit goes through; [commit] is the engine's verdict
    on the commit ([None]: committed). *)
Definition Update (commit : option error) (fn : DB -> option error * DB)
           (db : DB) : option error * DB :=
  match fn db with
  | (Some e, _) => (Some e, db)
  | (None, db') =>
    match commit with
    | Some e => (Some e, db)
    | None => (None, db')
    end
  end.

(** Keys strictly ascending. *)
Fixpoint sorted (db : DB) : Prop :=
  match db with
  | [] => True
  | (k, _) :: rest =>
    match rest with
    | [] => True
    | (k', _) :: _ => String.compare k k' = Lt
    end /\ sorted rest
  end.

End badger.

(** ** The HTTP response writer and request *)

Module http.

Definition MethodGet : string := "GET".
Definition MethodPost : string := "POST".

Definition StatusBadRequest : Z := 400.
Definition StatusNotFound : Z := 404.
Definition StatusInternalServerError : Z := 500.

(** The header map; keys are kept as the handlers write them. *)
Definition Header : Type := list (string * string).

(** [h.Set(key, value)] *)
Fixpoint Header_Set (key value : string) (h : Header) : Header :=
  match h with
  | [] => [(key, value)]
  | (k, v) :: rest =>
    if String.eqb key k then (key, value) :: rest
    else (k, v) :: Header_Set key value rest
  end.

(** [h.Get(key)], empty when the key is not set. *)
Fixpoint Header_Get (key : string) (h : Header) : string :=
  match h with
  | [] => ""
  | (k, v) :: rest => if String.eqb key k then v else Header_Get key rest
  end.

(** The request fields the handlers read; [Vars] are the path variables
    that the router extracted. *)
Record Request : Type := mkRequest {
  Method : string;
  Host : string;
  Body : string;
  Vars : list (string * string)
}.

(** [mux.Vars(r)[name]], the empty string when the variable is absent. *)
Definition mux_Vars (r : Request) (name : string) : string :=
  Header_Get name (Vars r).

(** The response under construction: the header map, the status line
    once it went out (with the headers that went out with it), and the
    bodies of the [Write] calls in order. *)
Record ResponseWriter : Type := mkResponseWriter {
  header : Header;
  wrote : option (Z * Header);
  body : list string
}.

Definition NewResponseWriter : ResponseWriter := mkResponseWriter [] None [].

(** [w.Header().Set(key, value)] *)
Definition Set_header (key value : string) (w : ResponseWriter) : ResponseWriter :=
  mkResponseWriter (Header_Set key value (header w)) (wrote w) (body w).

(** [w.WriteHeader(code)]: only the first call counts. *)
Definition WriteHeader (code : Z) (w : ResponseWriter) : ResponseWriter :=
  match wrote w with
  | Some _ => w
  | None => mkResponseWriter (header w) (Some (code, header w)) (body w)
  end.

(** [w.Write(b)]: sends status 200 first when no status went out yet. *)
Definition Write (b : string) (w : ResponseWriter) : ResponseWriter :=
  let w := WriteHeader 200 w in
  mkResponseWriter (header w) (wrote w) (body w ++ [b])%list.

(** [http.Error(w, msg, code)] *)
Definition Error (w : ResponseWriter) (msg : string) (code : Z) : ResponseWriter :=
  let w := Set_header "Content-Type" "text/plain; charset=utf-8" w in
  let w := Set_header "X-Content-Type-Options" "nosniff" w in
  let w := WriteHeader code w in
  Write (msg ++ String "010"%char "") w.

(** The status code that went out, if any. *)
Definition status (w : ResponseWriter) : option Z := option_map fst (wrote w).

End http.

(** ** The JSON codec

    [encoding/json] is a library outside this package; the functions below
    are the calls the package makes.  [json_Encode_*] is the byte string
    that [json.NewEncoder(w).Encode(v)] hands to one [w.Write]. *)
Class JSON : Type := {
  json_Marshal : Notification -> result string;
  json_Unmarshal : string -> result Notification;
  json_Decode : string -> result Notification;
  json_Encode_LDNInbox : LDNInbox -> string;
  json_Encode_LDNotification : LDNotification -> string
}.

(** ** Storage layer *)

Section Storage.

Context {codec : JSON}.

(** The loop of [getInbox]: while the iterator is valid for the prefix,
    decode the item's value and append it; a value that does not decode
    ends the transaction with the error. *)
Fixpoint getInbox_loop (prefix : string) (it : list badger.Item)
         (notifications : list Notification)
  : list Notification * option error :=
  match it with
  | [] => (notifications, None)
  | (k, v) :: next =>
    if String.prefix prefix k then
      match json_Unmarshal v with
      | Err e => (notifications, Some e)
      | Ok notification =>
        getInbox_loop prefix next (append notifications notification)
      end
    else (notifications, None)
  end.

Definition getInbox (inboxID : string) (db : badger.DB)
  : (list Notification * option error) * badger.DB :=
  let notifications := make Notification_zero 0 maxResponseSize in
  let '((notifications, err), db) :=
    badger.View (fun txn =>
      let prefix := inboxID ++ "-" in
      getInbox_loop prefix (badger.Seek prefix txn) notifications) db in
  match err with
  | Some e => (([], Some e), db)
  | None => ((notifications, None), db)
  end.

Definition getNotification (inboxID notificationID : string) (db : badger.DB)
  : (Notification * option error) * badger.DB :=
  let notification := Notification_zero in
  let '((notification, err), db) :=
    badger.View (fun txn =>
      let id := inboxID ++ "-" ++ notificationID in
      match badger.Get id txn with
      | Err e => (notification, Some e)
      | Ok v =>
        match json_Unmarshal v with
        | Err e => (notification, Some e)
        | Ok decoded => (decoded, None)
        end
      end) db in
  match err with
  | Some _ => ((Notification_zero, None), db)
  | None => ((notification, None), db)
  end.

(** [new_id] is the string that [uuid.New().String()] returns in this
    call and [commit] the store's verdict on the commit. *)
Definition createNotification (new_id : string) (commit : option error)
           (inboxID : string) (notification : Notification) (db : badger.DB)
  : (Notification * option error) * badger.DB :=
  let notification := with_ID new_id notification in
  match json_Marshal notification with
  | Err e => ((Notification_zero, Some e), db)
  | Ok n =>
    let '(err, db) :=
      badger.Update commit (fun txn =>
        let id := inboxID ++ "-" ++ ID notification in
        (None, badger.SetEntry id n txn)) db in
    match err with
    | Some e => ((Notification_zero, Some e), db)
    | None => ((Notification_zero, None), db)
    end
  end.

End Storage.

(** ** Projection layer *)

Definition stringTransform : Type := string -> string.

(** The loop of [mapNotificationsID]: [ids[i] = transform(n.ID)] for the
    [i]-th notification. *)
Fixpoint mapNotificationsID_loop (transform : stringTransform) (i : nat)
         (ns : list Notification) (ids : list string) : list string :=
  match ns with
  | [] => ids
  | n :: rest =>
    mapNotificationsID_loop transform (S i) rest
                            (set_index ids i (transform (ID n)))
  end.

Definition mapNotificationsID (ns : list Notification)
           (transform : stringTransform) : list string :=
  let ids := make "" (List.length ns) (List.length ns) in
  mapNotificationsID_loop transform 0 ns ids.

Definition makeLDNInbox (inboxID : string) (makeID : stringTransform)
           (ns : list Notification) : LDNInbox :=
  mkLDNInbox "http://www.w3.org/ns/ldp" inboxID (mapNotificationsID ns makeID).

Definition makeLDNotification (makeID : stringTransform) (n : Notification)
  : LDNotification :=
  mkLDNotification "https://www.w3.org/ns/activitystreams"
                   (makeID (ID n))
                   "Announce"
                   (Actor n) (Object n) (Target n) (Updated n).

(** ** HTTP handlers *)

Section Handlers.

Context {codec : JSON}.

Import http.

(** [new_id] and [commit] are handed on to [createNotification]. *)
Definition handleInbox (new_id : string) (commit : option error)
           (w : ResponseWriter) (r : Request) (db : badger.DB)
  : ResponseWriter * badger.DB :=
  let inboxURN := mux_Vars r "URN" in
  if String.eqb (Method r) MethodPost then
    match json_Decode (Body r) with
    | Err e => (http.Error w (err_Error e) StatusBadRequest, db)
    | Ok n =>
      let '((notification, err), db) :=
        createNotification new_id commit inboxURN n db in
      match err with
      | Some e => (http.Error w (err_Error e) StatusBadRequest, db)
      | None =>
        let w := Set_header "content-type" "application/ld+json" w in
        let w := Set_header "location"
                   ("http://" ++ Host r ++ "/texts/" ++ inboxURN
                              ++ "/inbox/" ++ ID notification) w in
        (WriteHeader 201 w, db)
      end
    end
  else if String.eqb (Method r) MethodGet then
    let '((notifications, err), db) := getInbox inboxURN db in
    match err with
    | Some e => (http.Error w (err_Error e) StatusBadRequest, db)
    | None =>
      let inboxID := "http://" ++ Host r ++ "/texts/" ++ inboxURN ++ "/inbox" in
      let inbox :=
        makeLDNInbox inboxID (fun id => inboxID ++ "/" ++ id) notifications in
      let w := Set_header "content-type" "application/ld+json" w in
      (Write (json_Encode_LDNInbox inbox) w, db)
    end
  else (http.Error w "Not Found" StatusNotFound, db).

(** The public URI of a notification, as [handleNotification] builds it. *)
Definition notificationURI (r : Request) (inboxURN : string) : stringTransform :=
  fun id => "http://" ++ Host r ++ "/texts/" ++ inboxURN ++ "/inbox/" ++ id.

Definition handleNotification (w : ResponseWriter) (r : Request)
           (db : badger.DB) : ResponseWriter * badger.DB :=
  let inboxURN := mux_Vars r "URN" in
  let notificationID := mux_Vars r "ID" in
  let w :=
    if negb (String.eqb (Method r) MethodGet)
    then Write "Not Found" (WriteHeader 404 w)
    else w in
  let '((notification, err), db) :=
    getNotification inboxURN notificationID db in
  match err with
  | Some _ =>
    (http.Error w "Internal Server Error" StatusInternalServerError, db)
  | None =>
    let n := makeLDNotification (notificationURI r inboxURN) notification in
    let w := Set_header "content-type" "application/ld+json" w in
    (Write (json_Encode_LDNotification n) w, db)
  end.

End Handlers.

(** ** Specification vocabulary *)

(** The storage key of notification [id] in inbox [inboxID]. *)
Definition key_of (inboxID id : string) : string := inboxID ++ "-" ++ id.

(** [A] is a strict prefix of [B]. *)
Definition strict_prefix (A B : string) : Prop :=
  String.prefix A B = true /\ A <> B.

(** The items that the scan of [getInbox] reaches: from the seek position
    on, as long as the key carries the prefix. *)
Fixpoint while_prefix (prefix : string) (it : list badger.Item) : list badger.Item :=
  match it with
  | [] => []
  | (k, v) :: next =>
    if String.prefix prefix k then (k, v) :: while_prefix prefix next else []
  end.

Definition scanned (inboxID : string) (db : badger.DB) : list badger.Item :=
  while_prefix (inboxID ++ "-") (badger.Seek (inboxID ++ "-") db).

(** The stored item decodes to the record [n]. *)
Definition decodes {codec : JSON} (item : badger.Item) (n : Notification) : Prop :=
  json_Unmarshal (snd item) = Ok n.

(** [getInbox inboxID db] returns, at position [i], the record [n] that it
    read from the item stored under key [k]. *)
Definition returns_from_key {codec : JSON} (inboxID : string) (db : badger.DB)
           (i : nat) (k : string) (n : Notification) : Prop :=
  exists v,
    nth_error (scanned inboxID db) i = Some (k, v) /\
    json_Unmarshal v = Ok n /\
    nth_error (fst (fst (getInbox inboxID db))) i = Some n.

(** The keys of [db] that carry the prefix of inbox [inboxID]. *)
Definition keys_of_inbox (inboxID : string) (db : badger.DB) : list string :=
  filter (String.prefix (inboxID ++ "-")) (map fst db).

(** The canonical text form of a UUID, which [uuid.New().String()]
    produces: 36 characters, hyphens at positions 8, 13, 18 and 23 and
    lower-case hexadecimal digits elsewhere. *)
Definition is_hex (c : ascii) : bool :=
  let n := nat_of_ascii c in
  (((48 <=? n) && (n <=? 57)) || ((97 <=? n) && (n <=? 102)))%nat%bool.

Fixpoint uuid_chars (i : nat) (s : string) : bool :=
  match s with
  | EmptyString => Nat.eqb i 36
  | String c rest =>
    (if (Nat.eqb i 8 || Nat.eqb i 13 || Nat.eqb i 18 || Nat.eqb i 23)%bool
     then Ascii.eqb c "-" else is_hex c)
    && uuid_chars (S i) rest
  end.

Definition is_uuid (s : string) : bool := uuid_chars 0 s.

(** A run of creations from a store: each entry is the generated
    identifier and the notification posted. *)
Fixpoint create_all {codec : JSON} (inboxID : string)
         (posts : list (string * Notification)) (db : badger.DB) : badger.DB :=
  match posts with
  | [] => db
  | (new_id, n) :: rest =>
    create_all inboxID rest (snd (createNotification new_id None inboxID n db))
  end.

(** One call of [createNotification]: the inbox, the identifier that was
    generated, the store's verdict on the commit and the record posted. *)
Record creation : Type := mkCreation {
  to_inbox : string;
  generated : string;
  verdict : option error;
  posted : Notification
}.

(** The store after a history of creations, oldest first. *)
Fixpoint create_each {codec : JSON} (history : list creation) (db : badger.DB)
  : badger.DB :=
  match history with
  | [] => db
  | c :: rest =>
    create_each rest
      (snd (createNotification (generated c) (verdict c) (to_inbox c) (posted c) db))
  end.

(** The identifier holds no separator character. *)
Fixpoint no_dash (s : string) : bool :=
  match s with
  | EmptyString => true
  | String c rest => negb (Ascii.eqb c "-") && no_dash rest
  end.

(** The headers that went out with the status line. *)
Definition sent (w : http.ResponseWriter) : http.Header :=
  match http.wrote w with
  | Some (_, h) => h
  | None => []
  end.

(** The public URI of an inbox, as [handleInbox] builds it. *)
Definition inboxURI (r : http.Request) (inboxURN : string) : string :=
  "http://" ++ http.Host r ++ "/texts/" ++ inboxURN ++ "/inbox".

(** ** A concrete codec

    A small JSON writer and reader for the three wire shapes, used to run
    the package on concrete requests.  Strings are written between quotes
    with the quote and the backslash escaped. *)

Module MiniJSON.

Definition quote : ascii := "034"%char.
Definition backslash : ascii := "092"%char.
Definition newline : string := String "010"%char EmptyString.

Fixpoint escape (s : string) : string :=
  match s with
  | EmptyString => EmptyString
  | String c rest =>
    if (Ascii.eqb c quote || Ascii.eqb c backslash)%bool
    then String backslash (String c (escape rest))
    else String c (escape rest)
  end.

Definition quoted (s : string) : string :=
  String quote (escape s ++ String quote EmptyString).

Definition member (k v : string) : string := quoted k ++ ":" ++ quoted v.

Definition marshal (n : Notification) : string :=
  "{" ++ member "id" (ID n) ++ "," ++ member "actor" (Actor n)
      ++ "," ++ member "object" (Object n)
      ++ "," ++ member "target" (Target n)
      ++ "," ++ member "updated" (Updated n) ++ "}".

(** Reads a string literal whose opening quote is already consumed;
    returns the string and the rest of the input. *)
Fixpoint read_string (s : string) : option (string * string) :=
  match s with
  | EmptyString => None
  | String c rest =>
    if Ascii.eqb c quote then Some (EmptyString, rest)
    else if Ascii.eqb c backslash then
      match rest with
      | EmptyString => None
      | String d rest' =>
        match read_string rest' with
        | Some (t, out) => Some (String d t, out)
        | None => None
        end
      end
    else
      match read_string rest with
      | Some (t, out) => Some (String c t, out)
      | None => None
      end
  end.

Definition expect (c : ascii) (s : string) : option string :=
  match s with
  | EmptyString => None
  | String d rest => if Ascii.eqb c d then Some rest else None
  end.

Definition read_quoted (s : string) : option (string * string) :=
  match expect quote s with
  | Some rest => read_string rest
  | None => None
  end.

(** A field is matched by its name; other names are skipped. *)
Definition set_field (k v : string) (n : Notification) : Notification :=
  if String.eqb k "id" then
    mkNotification v (Actor n) (Object n) (Target n) (Updated n)
  else if String.eqb k "actor" then
    mkNotification (ID n) v (Object n) (Target n) (Updated n)
  else if String.eqb k "object" then
    mkNotification (ID n) (Actor n) v (Target n) (Updated n)
  else if String.eqb k "target" then
    mkNotification (ID n) (Actor n) (Object n) v (Updated n)
  else if String.eqb k "updated" then
    mkNotification (ID n) (Actor n) (Object n) (Target n) v
  else n.

Fixpoint read_members (fuel : nat) (s : string) (n : Notification)
  : option Notification :=
  match fuel with
  | O => None
  | S fuel =>
    match read_quoted s with
    | None => None
    | Some (k, s1) =>
      match expect ":" s1 with
      | None => None
      | Some s2 =>
        match read_quoted s2 with
        | None => None
        | Some (v, s3) =>
          match s3 with
          | String "," s4 => read_members fuel s4 (set_field k v n)
          | String "}" EmptyString => Some (set_field k v n)
          | _ => None
          end
        end
      end
    end
  end.

Definition unmarshal (s : string) : result Notification :=
  match expect "{" s with
  | None => Err (ErrJSON "invalid character looking for beginning of value")
  | Some rest =>
    if String.eqb rest "}" then Ok Notification_zero
    else
      match read_members (String.length s) rest Notification_zero with
      | Some n => Ok n
      | None => Err (ErrJSON "unexpected end of JSON input")
      end
  end.

Fixpoint elements (l : list string) : string :=
  match l with
  | [] => EmptyString
  | [x] => quoted x
  | x :: rest => quoted x ++ "," ++ elements rest
  end.

Definition encode_inbox (b : LDNInbox) : string :=
  "{" ++ member "@context" (inbox_Context b)
      ++ "," ++ member "@id" (inbox_ID b)
      ++ "," ++ quoted "contains" ++ ":[" ++ elements (inbox_Contains b)
      ++ "]}" ++ newline.

Definition encode_notification (n : LDNotification) : string :=
  "{" ++ member "@context" (ldn_Context n)
      ++ "," ++ member "@id" (ldn_ID n)
      ++ "," ++ member "@type" (ldn_Type n)
      ++ "," ++ member "actor" (ldn_Actor n)
      ++ "," ++ member "object" (ldn_Object n)
      ++ "," ++ member "target" (ldn_Target n)
      ++ "," ++ member "updated" (ldn_Updated n) ++ "}" ++ newline.

Definition codec : JSON := {|
  json_Marshal := fun n => Ok (marshal n);
  json_Unmarshal := unmarshal;
  json_Decode := unmarshal;
  json_Encode_LDNInbox := encode_inbox;
  json_Encode_LDNotification := encode_notification
|}.

End MiniJSON.

(** ** Sample data *)

Module Sample.

Definition n1 : Notification := mkNotification "" "u1" "o1" "t1" "2024-01-01".

Definition id1 : string := "6ba7b810-9dad-41d1-80b4-00c04fd430c8".
Definition id2 : string := "0e3c1a52-77f0-4b6e-9c1d-5a2f8e4b7d10".

(** The stored form of [n1] under [id1]. *)
Definition n1_stored : Notification :=
  mkNotification id1 "u1" "o1" "t1" "2024-01-01".

Definition hex_digit (d : nat) : ascii :=
  ascii_of_nat (if d <? 10 then 48 + d else 87 + d)%nat.

(** The [i]-th identifier of a run of distinct identifiers ([i < 256]). *)
Definition nth_id (i : nat) : string :=
  "00000000-0000-4000-8000-0000000000"
    ++ String (hex_digit (i / 16)) (String (hex_digit (i mod 16)) EmptyString).

Definition posts (count : nat) : list (string * Notification) :=
  map (fun i => (nth_id i, n1)) (seq 0 count).

(** The store after [count] notifications were created in inbox
    [work1], starting from the empty store. *)
Definition store (count : nat) : badger.DB :=
  create_all (codec := MiniJSON.codec) "work1" (posts count) badger.empty.

(** The store after one notification was created in inbox [work-1]. *)
Definition store_work_1 : badger.DB :=
  snd (createNotification (codec := MiniJSON.codec) id1 None "work-1" n1
                          badger.empty).

(** The store after one notification each was created in the inboxes
    [work] and [work1]. *)
Definition store_two : badger.DB :=
  snd (createNotification (codec := MiniJSON.codec) id2 None "work1" n1
         (snd (createNotification (codec := MiniJSON.codec) id1 None "work" n1
                                  badger.empty))).

Definition post_work1 : http.Request :=
  http.mkRequest "POST" "example.org" (MiniJSON.marshal n1) [("URN", "work1")].

Definition get_inbox : http.Request :=
  http.mkRequest "GET" "example.org" EmptyString [("URN", "work1")].

Definition get_one : http.Request :=
  http.mkRequest "GET" "example.org" EmptyString
                 [("URN", "work1"); ("ID", nth_id 0)].

Definition get_missing : http.Request :=
  http.mkRequest "GET" "example.org" EmptyString
                 [("URN", "work1"); ("ID", "nope")].

Definition put_inbox : http.Request :=
  http.mkRequest "PUT" "example.org" EmptyString [("URN", "work1")].

Definition post_garbage : http.Request :=
  http.mkRequest "POST" "example.org" "not json" [("URN", "work1")].

(** A store whose second item of inbox [work1] does not decode. *)
Definition store_corrupt : badger.DB :=
  [("work1-a", MiniJSON.marshal n1_stored); ("work1-b", "not json");
   ("work1-c", MiniJSON.marshal n1_stored)].

Definition delete_one : http.Request :=
  http.mkRequest "DELETE" "example.org" EmptyString
                 [("URN", "work1"); ("ID", nth_id 0)].

End Sample.

(** * Properties *)

(** ** Strings: prefixes and the byte order *)

Lemma prefix_nil (s : string) : String.prefix EmptyString s = true.
Proof. destruct s; reflexivity. Qed.

Lemma prefix_cons (a b : ascii) (p s : string) :
  String.prefix (String a p) (String b s) = (Ascii.eqb a b && String.prefix p s)%bool.
Proof.
  simpl. destruct (ascii_dec a b) as [e | ne].
  - subst b. now rewrite Ascii.eqb_refl.
  - apply Ascii.eqb_neq in ne. now rewrite ne.
Qed.

Lemma prefix_app (p s : string) : String.prefix p (p ++ s) = true.
Proof.
  induction p as [| a p IH]; simpl String.append.
  - apply prefix_nil.
  - now rewrite prefix_cons, Ascii.eqb_refl, IH.
Qed.

Lemma prefix_length (p k : string) :
  String.prefix p k = true -> String.length p <= String.length k.
Proof.
  revert k. induction p as [| a p IH]; intros k Hp; simpl; [lia |].
  destruct k as [| b k]; [discriminate |].
  rewrite prefix_cons in Hp. apply andb_prop in Hp as [_ Hpk].
  apply IH in Hpk. simpl. lia.
Qed.

Lemma append_length (s t : string) :
  String.length (s ++ t) = String.length s + String.length t.
Proof. induction s as [| a s IH]; simpl; [reflexivity | now rewrite IH]. Qed.

(** A prefix of the same length is the whole string. *)
Lemma prefix_same_length (p k : string) :
  String.prefix p k = true -> String.length p = String.length k -> p = k.
Proof.
  revert k. induction p as [| a p IH]; intros k Hp Hl.
  - destruct k; [reflexivity | discriminate].
  - destruct k as [| b k]; [discriminate |].
    rewrite prefix_cons in Hp. apply andb_prop in Hp as [Hab Hpk].
    apply Ascii.eqb_eq in Hab. subst b. f_equal. apply IH; auto.
Qed.

Lemma strict_prefix_length (A B : string) :
  strict_prefix A B -> String.length A < String.length B.
Proof.
  intros [Hp Hne]. pose proof (prefix_length _ _ Hp) as Hle.
  destruct (Nat.eq_dec (String.length A) (String.length B)) as [e | ne]; [| lia].
  exfalso. apply Hne. now apply prefix_same_length.
Qed.

(** What follows a string that is at least as long as the prefix does not
    change whether the string carries the prefix. *)
Lemma prefix_app_long (p b s : string) :
  String.length p <= String.length b ->
  String.prefix p (b ++ s) = String.prefix p b.
Proof.
  revert b. induction p as [| a p IH]; intros b Hl.
  - now rewrite !prefix_nil.
  - destruct b as [| c b]; simpl in Hl; [lia |].
    simpl String.append. rewrite !prefix_cons. f_equal. apply IH. lia.
Qed.

Lemma ascii_compare_refl (a : ascii) : Ascii.compare a a = Eq.
Proof. unfold Ascii.compare. apply N.compare_refl. Qed.

Lemma compare_refl (s : string) : String.compare s s = Eq.
Proof.
  induction s as [| a s IH]; simpl; [reflexivity |].
  now rewrite ascii_compare_refl.
Qed.

Lemma compare_Eq_eqb (s t : string) :
  String.compare s t = Eq <-> String.eqb s t = true.
Proof.
  split; intros H.
  - apply String.compare_eq_iff in H. subst. apply String.eqb_refl.
  - apply String.eqb_eq in H. subst. apply compare_refl.
Qed.

Lemma compare_Gt_Lt (s t : string) :
  String.compare s t = Gt <-> String.compare t s = Lt.
Proof.
  rewrite (String.compare_antisym t s).
  destruct (String.compare s t); simpl; split; congruence.
Qed.

Lemma ascii_compare_trans (a b c : ascii) :
  Ascii.compare a b = Lt -> Ascii.compare b c = Lt -> Ascii.compare a c = Lt.
Proof.
  unfold Ascii.compare. rewrite !N.compare_lt_iff. lia.
Qed.

Lemma compare_trans (s t u : string) :
  String.compare s t = Lt -> String.compare t u = Lt -> String.compare s u = Lt.
Proof.
  revert t u. induction s as [| a s IH]; intros [| b t] [| c u]; simpl;
    try congruence.
  destruct (Ascii.compare a b) eqn:Hab; try discriminate;
    destruct (Ascii.compare b c) eqn:Hbc; try discriminate; intros H1 H2.
  - apply Ascii.compare_eq_iff in Hab, Hbc. subst.
    rewrite ascii_compare_refl. eauto.
  - apply Ascii.compare_eq_iff in Hab. subst. now rewrite Hbc.
  - apply Ascii.compare_eq_iff in Hbc. subst. now rewrite Hab.
  - now rewrite (ascii_compare_trans _ _ _ Hab Hbc).
Qed.

(** A key that carries the prefix is not smaller than the prefix. *)
Lemma prefix_not_below (p k : string) :
  String.prefix p k = true -> String.ltb k p = false.
Proof.
  unfold String.ltb. revert k. induction p as [| a p IH]; intros k Hp.
  - destruct k; reflexivity.
  - destruct k as [| b k]; [discriminate |].
    rewrite prefix_cons in Hp. apply andb_prop in Hp as [Hab Hpk].
    apply Ascii.eqb_eq in Hab. subst b. simpl.
    rewrite ascii_compare_refl. now apply IH.
Qed.

(** In key order the keys that carry a prefix form one run: a key between
    the prefix and a key that carries it carries it too. *)
Lemma prefix_between (p k k' : string) :
  String.ltb k p = false -> String.compare k k' = Lt ->
  String.prefix p k' = true -> String.prefix p k = true.
Proof.
  unfold String.ltb. revert k k'.
  induction p as [| a p IH]; intros k k' Hlow Hlt Hp.
  - apply prefix_nil.
  - destruct k' as [| c k']; [discriminate |].
    rewrite prefix_cons in Hp. apply andb_prop in Hp as [Hac Hpk'].
    apply Ascii.eqb_eq in Hac. subst c.
    destruct k as [| b k]; [discriminate |].
    simpl in Hlow, Hlt. rewrite prefix_cons.
    destruct (Ascii.compare b a) eqn:Hba.
    + apply Ascii.compare_eq_iff in Hba. subst b.
      rewrite Ascii.eqb_refl. simpl. now apply (IH k k').
    + discriminate.
    + discriminate.
Qed.

(** ** The store *)

Lemma Get_SetEntry_same (key val : string) (db : badger.DB) :
  badger.Get key (badger.SetEntry key val db) = Ok val.
Proof.
  induction db as [| [k v] rest IH]; simpl.
  - now rewrite String.eqb_refl.
  - destruct (String.compare key k) eqn:Hc; simpl.
    + now rewrite String.eqb_refl.
    + now rewrite String.eqb_refl.
    + destruct (String.eqb key k) eqn:He; [| exact IH].
      apply compare_Eq_eqb in He. congruence.
Qed.

Lemma Get_SetEntry_other (key val key' : string) (db : badger.DB) :
  key' <> key ->
  badger.Get key' (badger.SetEntry key val db) = badger.Get key' db.
Proof.
  intros Hne. apply String.eqb_neq in Hne.
  induction db as [| [k v] rest IH]; simpl.
  - now rewrite Hne.
  - destruct (String.compare key k) eqn:Hc; simpl.
    + apply String.compare_eq_iff in Hc. subst k. now rewrite Hne.
    + now rewrite Hne.
    + now rewrite IH.
Qed.

Lemma Get_absent (key : string) (db : badger.DB) :
  (forall v, ~ In (key, v) db) -> badger.Get key db = Err ErrKeyNotFound.
Proof.
  induction db as [| [k v] rest IH]; simpl; intros Hno; [reflexivity |].
  destruct (String.eqb key k) eqn:He.
  - apply String.eqb_eq in He. subst k. exfalso. apply (Hno v). now left.
  - apply IH. intros v' Hin. apply (Hno v'). now right.
Qed.

Lemma sorted_tail (item : badger.Item) (db : badger.DB) :
  badger.sorted (item :: db) -> badger.sorted db.
Proof. destruct item as [k v]. simpl. tauto. Qed.

(** In a sorted store the first key is below every later key. *)
Lemma sorted_head_below (k v : string) (db : badger.DB) :
  badger.sorted ((k, v) :: db) ->
  forall k' v', In (k', v') db -> String.compare k k' = Lt.
Proof.
  revert k v. induction db as [| [k1 v1] rest IH]; intros k v Hs k' v' Hin.
  - destruct Hin.
  - destruct Hs as [Hlt Hrest]. destruct Hin as [[= <- <-] | Hin]; [exact Hlt |].
    apply (compare_trans _ k1); [exact Hlt |].
    now apply (IH k1 v1 Hrest k' v').
Qed.

Lemma SetEntry_head (key val : string) (db : badger.DB) :
  exists k v rest,
    badger.SetEntry key val db = (k, v) :: rest /\
    (k = key \/ exists v0 rest0, db = (k, v0) :: rest0 /\ String.compare k key = Lt).
Proof.
  destruct db as [| [k v] rest]; simpl.
  - exists key, val, []. auto.
  - destruct (String.compare key k) eqn:Hc.
    + exists key, val, rest. auto.
    + exists key, val, ((k, v) :: rest). auto.
    + exists k, v, (badger.SetEntry key val rest). split; [reflexivity |].
      right. exists v, rest. split; [reflexivity |]. now apply compare_Gt_Lt.
Qed.

(** Writing keeps the keys strictly ascending. *)
Lemma sorted_SetEntry (key val : string) (db : badger.DB) :
  badger.sorted db -> badger.sorted (badger.SetEntry key val db).
Proof.
  induction db as [| [k v] rest IH]; intros Hs.
  - simpl. auto.
  - simpl. destruct (String.compare key k) eqn:Hc.
    + apply String.compare_eq_iff in Hc. subst k. exact Hs.
    + split; [exact Hc | exact Hs].
    + destruct Hs as [Hhead Hrest]. specialize (IH Hrest).
      split; [| exact IH].
      destruct (SetEntry_head key val rest) as (k1 & v1 & r1 & Heq & Hk1).
      rewrite Heq. destruct Hk1 as [-> | (v0 & rest0 & -> & _)].
      * now apply compare_Gt_Lt.
      * exact Hhead.
Qed.

Lemma Seek_incl (prefix : string) (db : badger.DB) (item : badger.Item) :
  In item (badger.Seek prefix db) -> In item db.
Proof.
  induction db as [| [k v] rest IH]; simpl; [auto |].
  destruct (String.ltb k prefix); [intros H; right; now apply IH | auto].
Qed.

Lemma while_prefix_incl (prefix : string) (it : list badger.Item)
      (item : badger.Item) :
  In item (while_prefix prefix it) -> In item it.
Proof.
  induction it as [| [k v] next IH]; simpl; [auto |].
  destruct (String.prefix prefix k); simpl; [| tauto].
  intros [H | H]; [now left | right; now apply IH].
Qed.

Lemma while_prefix_has_prefix (prefix : string) (it : list badger.Item)
      (k v : string) :
  In (k, v) (while_prefix prefix it) -> String.prefix prefix k = true.
Proof.
  induction it as [| [k1 v1] next IH]; simpl; [tauto |].
  destruct (String.prefix prefix k1) eqn:Hp; simpl; [| tauto].
  intros [[= <- <-] | H]; [exact Hp | now apply IH].
Qed.

Lemma scanned_has_prefix (inboxID : string) (db : badger.DB) (k v : string) :
  In (k, v) (scanned inboxID db) -> String.prefix (inboxID ++ "-") k = true.
Proof. apply while_prefix_has_prefix. Qed.

Lemma scanned_incl (inboxID : string) (db : badger.DB) (item : badger.Item) :
  In item (scanned inboxID db) -> In item db.
Proof.
  intros H. apply (Seek_incl (inboxID ++ "-")).
  now apply (while_prefix_incl (inboxID ++ "-")).
Qed.

Lemma filter_none {A : Type} (f : A -> bool) (l : list A) :
  (forall x, In x l -> f x = false) -> filter f l = [].
Proof.
  induction l as [| x l IH]; intros Hall; simpl; [reflexivity |].
  rewrite (Hall x (or_introl eq_refl)). apply IH.
  intros y Hy. apply Hall. now right.
Qed.

(** From a position that is not below the prefix, the run of keys with
    the prefix is all there is of them in a sorted store. *)
Lemma while_prefix_filter (prefix : string) (it : list badger.Item) :
  badger.sorted it ->
  (forall k v, In (k, v) it -> String.ltb k prefix = false) ->
  while_prefix prefix it = filter (fun item => String.prefix prefix (fst item)) it.
Proof.
  induction it as [| [k v] next IH]; intros Hs Hlow; [reflexivity |].
  simpl. destruct (String.prefix prefix k) eqn:Hp.
  - f_equal. apply IH; [now apply sorted_tail in Hs |].
    intros k' v' Hin. apply (Hlow k' v'). now right.
  - symmetry. apply filter_none. intros [k' v'] Hin. simpl.
    destruct (String.prefix prefix k') eqn:Hp'; [| reflexivity].
    rewrite <- Hp. symmetry.
    apply (prefix_between prefix k k'); auto.
    + apply (Hlow k v). now left.
    + now apply (sorted_head_below k v next Hs k' v').
Qed.

Lemma Seek_not_below (prefix : string) (db : badger.DB) :
  badger.sorted db ->
  badger.sorted (badger.Seek prefix db) /\
  forall k v, In (k, v) (badger.Seek prefix db) -> String.ltb k prefix = false.
Proof.
  induction db as [| [k v] rest IH]; intros Hs; simpl.
  - split; [exact I | intros ? ? []].
  - destruct (String.ltb k prefix) eqn:Hk.
    + apply IH. now apply sorted_tail in Hs.
    + split; [exact Hs |].
      intros k' v' [[= <- <-] | Hin]; [exact Hk |].
      pose proof (sorted_head_below k v rest Hs k' v' Hin) as Hlt.
      unfold String.ltb in *.
      destruct (String.compare k' prefix) eqn:Hc; try reflexivity.
      rewrite (compare_trans _ _ _ Hlt Hc) in Hk. discriminate.
Qed.

Lemma Seek_filter (prefix : string) (db : badger.DB) :
  filter (fun item => String.prefix prefix (fst item)) (badger.Seek prefix db)
  = filter (fun item => String.prefix prefix (fst item)) db.
Proof.
  induction db as [| [k v] rest IH]; simpl; [reflexivity |].
  destruct (String.ltb k prefix) eqn:Hk; [| reflexivity].
  rewrite IH. destruct (String.prefix prefix k) eqn:Hp; [| reflexivity].
  apply prefix_not_below in Hp. congruence.
Qed.

(** The scan of a sorted store reaches exactly the items whose key
    carries the inbox prefix, in key order. *)
Lemma scanned_sorted (inboxID : string) (db : badger.DB) :
  badger.sorted db ->
  scanned inboxID db
  = filter (fun item => String.prefix (inboxID ++ "-") (fst item)) db.
Proof.
  intros Hs. unfold scanned.
  destruct (Seek_not_below (inboxID ++ "-") db Hs) as [Hs' Hlow].
  rewrite (while_prefix_filter _ _ Hs' Hlow). apply Seek_filter.
Qed.

(** ** Storage layer *)

Section StorageFacts.

Context {codec : JSON}.

(** A loop that ends without error has appended the decoded values of
    the items it reached, in their order. *)
Lemma getInbox_loop_ok (prefix : string) (it : list badger.Item) :
  forall acc ns,
    getInbox_loop prefix it acc = (ns, None) ->
    exists ns', ns = (acc ++ ns')%list /\
                Forall2 decodes (while_prefix prefix it) ns'.
Proof.
  induction it as [| [k v] next IH]; intros acc ns; simpl.
  - intros [= <-]. exists []. now rewrite app_nil_r.
  - destruct (String.prefix prefix k).
    + destruct (json_Unmarshal v) as [n | e] eqn:Hv; [| discriminate].
      intros Hloop. apply IH in Hloop as (ns' & -> & Hall).
      exists (n :: ns'). unfold append. rewrite <- app_assoc. simpl.
      split; [reflexivity |]. constructor; [exact Hv | exact Hall].
    + intros [= <-]. exists []. now rewrite app_nil_r.
Qed.

(** The loop ends without error when every item it reaches decodes. *)
Lemma getInbox_loop_total (prefix : string) (it : list badger.Item) :
  (forall item, In item (while_prefix prefix it) ->
                exists n, decodes item n) ->
  forall acc, exists ns, getInbox_loop prefix it acc = (ns, None).
Proof.
  induction it as [| [k v] next IH]; intros Hall acc; simpl.
  - now exists acc.
  - simpl in Hall. destruct (String.prefix prefix k).
    + destruct (Hall (k, v) (or_introl eq_refl)) as [n Hn].
      unfold decodes in Hn. simpl in Hn. rewrite Hn.
      apply IH. intros item Hin. apply Hall. now right.
    + now exists acc.
Qed.

(** An error of the loop is the decoding error of an item it reached. *)
Lemma getInbox_loop_error (prefix : string) (it : list badger.Item) :
  forall acc ns e,
    getInbox_loop prefix it acc = (ns, Some e) ->
    exists item, In item (while_prefix prefix it) /\
                 json_Unmarshal (snd item) = Err e.
Proof.
  induction it as [| [k v] next IH]; intros acc ns e; simpl; [discriminate |].
  destruct (String.prefix prefix k); [| discriminate].
  destruct (json_Unmarshal v) as [n | e'] eqn:Hv.
  - intros Hloop. apply IH in Hloop as (item & Hin & Hitem).
    exists item. split; [now right | exact Hitem].
  - intros [= _ <-]. exists (k, v). split; [now left | exact Hv].
Qed.

Lemma getInbox_unfold (inboxID : string) (db : badger.DB) :
  getInbox inboxID db =
  match getInbox_loop (inboxID ++ "-") (badger.Seek (inboxID ++ "-") db) [] with
  | (_, Some e) => (([], Some e), db)
  | (ns, None) => ((ns, None), db)
  end.
Proof.
  unfold getInbox, badger.View, make. simpl.
  now destruct (getInbox_loop _ _ _) as [ns [e |]].
Qed.

(** What [getInbox] returns without error are the decoded values of the
    scanned items, one per item and in their order. *)
Lemma getInbox_scanned (inboxID : string) (db db' : badger.DB)
      (ns : list Notification) :
  getInbox inboxID db = ((ns, None), db') ->
  Forall2 decodes (scanned inboxID db) ns.
Proof.
  rewrite getInbox_unfold.
  destruct (getInbox_loop _ _ _) as [ns0 [e |]] eqn:Hloop; [discriminate |].
  intros [= <- _]. apply getInbox_loop_ok in Hloop as (ns' & -> & Hall).
  exact Hall.
Qed.

(** A stored value that does not decode aborts the listing: the error is
    the decoding error of a scanned item and no record is returned. *)
Lemma getInbox_error_aborts (inboxID : string) (db db' : badger.DB)
      (ns : list Notification) (e : error) :
  getInbox inboxID db = ((ns, Some e), db') ->
  ns = [] /\
  exists item, In item (scanned inboxID db) /\ json_Unmarshal (snd item) = Err e.
Proof.
  rewrite getInbox_unfold.
  destruct (getInbox_loop _ _ _) as [ns0 [e0 |]] eqn:Hloop; [| discriminate].
  intros [= <- <- _]. split; [reflexivity |].
  now apply getInbox_loop_error in Hloop.
Qed.

(** [getInbox] returns one record per stored key of the inbox, however
    many there are, when the stored values decode. *)
Lemma getInbox_returns_every_record (inboxID : string) (db : badger.DB) :
  badger.sorted db ->
  (forall item, In item db -> exists n, decodes item n) ->
  exists ns,
    getInbox inboxID db = ((ns, None), db) /\
    List.length ns = List.length (keys_of_inbox inboxID db).
Proof.
  intros Hs Hdec. rewrite getInbox_unfold.
  destruct (getInbox_loop_total (inboxID ++ "-")
              (badger.Seek (inboxID ++ "-") db)) with (acc := @nil Notification)
    as [ns Hloop].
  { intros item Hin. apply Hdec. now apply (scanned_incl inboxID). }
  rewrite Hloop. exists ns. split; [reflexivity |].
  apply getInbox_loop_ok in Hloop as (ns' & -> & Hall). simpl.
  apply Forall2_length in Hall. rewrite <- Hall.
  fold (scanned inboxID db). rewrite (scanned_sorted _ _ Hs).
  unfold keys_of_inbox. clear. induction db as [| [k v] rest IH]; simpl; [reflexivity |].
  destruct (String.prefix (inboxID ++ "-") k); simpl; now rewrite IH.
Qed.

(** The loop run on the iterator operations of the store: it goes on
    while the iterator is valid for the prefix, and moves on with
    [Next]. *)
Lemma getInbox_loop_step (prefix : string) (it : list badger.Item)
      (acc : list Notification) :
  getInbox_loop prefix it acc =
  if badger.ValidForPrefix prefix it then
    match it with
    | [] => (acc, None)
    | item :: _ =>
      match json_Unmarshal (snd item) with
      | Err e => (acc, Some e)
      | Ok n => getInbox_loop prefix (badger.Next it) (append acc n)
      end
    end
  else (acc, None).
Proof.
  destruct it as [| [k v] next]; simpl; [reflexivity |].
  now destruct (String.prefix prefix k).
Qed.

(** A scan that reaches no item returns the empty sequence. *)
Lemma getInbox_nothing_scanned (inboxID : string) (db : badger.DB) :
  scanned inboxID db = [] -> getInbox inboxID db = (([], None), db).
Proof.
  unfold scanned. rewrite getInbox_unfold.
  destruct (badger.Seek (inboxID ++ "-") db) as [| [k v] next]; [reflexivity |].
  simpl. now destruct (String.prefix (inboxID ++ "-") k).
Qed.

(** The scan reaches no item when no key carries the prefix. *)
Lemma scanned_nil (inboxID : string) (db : badger.DB) :
  (forall k v, In (k, v) db -> String.prefix (inboxID ++ "-") k = false) ->
  scanned inboxID db = [].
Proof.
  intros Hno. destruct (scanned inboxID db) as [| [k v] rest] eqn:Hscan;
    [reflexivity |].
  assert (Hin : In (k, v) (scanned inboxID db)) by (rewrite Hscan; now left).
  pose proof (scanned_has_prefix _ _ _ _ Hin) as Hp.
  rewrite (Hno k v (scanned_incl _ _ _ Hin)) in Hp. discriminate.
Qed.

(** A store none of whose keys carries the inbox prefix lists as the
    empty sequence and the nil error. *)
Theorem getInbox_empty_inbox (inboxID : string) (db : badger.DB) :
  (forall k v, In (k, v) db -> String.prefix (inboxID ++ "-") k = false) ->
  getInbox inboxID db = (([], None), db).
Proof.
  intros Hno. apply getInbox_nothing_scanned. now apply scanned_nil.
Qed.

(** [getNotification] never returns an error. *)
Lemma getNotification_error_nil (inboxID notificationID : string)
      (db : badger.DB) :
  snd (fst (getNotification inboxID notificationID db)) = None.
Proof.
  unfold getNotification, badger.View.
  destruct (badger.Get _ db) as [v | e]; [| reflexivity].
  now destruct (json_Unmarshal v).
Qed.

(** C1, as the code behaves: a lookup whose key is absent, and a lookup
    whose stored value does not decode, both return the zero record
    with the nil error. *)
Theorem getNotification_failure_reported_as_success
        (inboxID notificationID : string) (db : badger.DB) :
  ((forall v, ~ In (key_of inboxID notificationID, v) db) \/
   exists v e, badger.Get (key_of inboxID notificationID) db = Ok v /\
               json_Unmarshal v = Err e) ->
  getNotification inboxID notificationID db = ((Notification_zero, None), db).
Proof.
  intros [Habsent | (v & e & Hget & Hbad)].
  - apply Get_absent in Habsent.
    unfold getNotification, badger.View. fold (key_of inboxID notificationID).
    now rewrite Habsent.
  - unfold getNotification, badger.View. fold (key_of inboxID notificationID).
    now rewrite Hget, Hbad.
Qed.

(** A lookup of a stored key whose value decodes returns the record. *)
Lemma getNotification_found (inboxID notificationID v : string)
      (n : Notification) (db : badger.DB) :
  badger.Get (key_of inboxID notificationID) db = Ok v ->
  json_Unmarshal v = Ok n ->
  getNotification inboxID notificationID db = ((n, None), db).
Proof.
  unfold getNotification, badger.View, key_of. intros Hget Hv.
  now rewrite Hget, Hv.
Qed.

(** A creation that returns the nil error has written the serialised
    record under the composite key. *)
Lemma createNotification_success (new_id : string) (commit : option error)
      (inboxID : string) (n : Notification) (db : badger.DB) :
  snd (fst (createNotification new_id commit inboxID n db)) = None ->
  exists b,
    json_Marshal (with_ID new_id n) = Ok b /\
    snd (createNotification new_id commit inboxID n db)
    = badger.SetEntry (key_of inboxID new_id) b db.
Proof.
  unfold createNotification, badger.Update, with_ID, key_of. simpl.
  destruct (json_Marshal _) as [b | e]; [| discriminate].
  destruct commit as [e |]; [discriminate |].
  intros _. now exists b.
Qed.

(** A creation that returns an error leaves the store as it was. *)
Lemma createNotification_failure (new_id : string) (commit : option error)
      (inboxID : string) (n : Notification) (db : badger.DB) (e : error) :
  snd (fst (createNotification new_id commit inboxID n db)) = Some e ->
  snd (createNotification new_id commit inboxID n db) = db.
Proof.
  unfold createNotification, badger.Update. simpl.
  destruct (json_Marshal _) as [b | e']; [| reflexivity].
  destruct commit as [e' |]; [reflexivity | discriminate].
Qed.

End StorageFacts.

Section StorageClaims.

Context {codec : JSON}.

Lemma is_uuid_nonempty (s : string) : is_uuid s = true -> s <> EmptyString.
Proof. intros H ->. discriminate H. Qed.

(** C5: a notification that was created is returned by the lookup under
    the generated identifier: the record read back carries that
    identifier, which is not empty, and the actor, object, target and
    updated fields of the posted record, whatever identifier the posted
    record carried. *)
Theorem create_then_get_round_trip
        (new_id : string) (commit : option error) (inboxID : string)
        (n : Notification) (db : badger.DB) :
  is_uuid new_id = true ->
  snd (fst (createNotification new_id commit inboxID n db)) = None ->
  (forall b, json_Marshal (with_ID new_id n) = Ok b ->
             json_Unmarshal b = Ok (with_ID new_id n)) ->
  exists r,
    getNotification inboxID new_id
                    (snd (createNotification new_id commit inboxID n db))
    = ((r, None), snd (createNotification new_id commit inboxID n db)) /\
    ID r = new_id /\ ID r <> EmptyString /\
    Actor r = Actor n /\ Object r = Object n /\
    Target r = Target n /\ Updated r = Updated n.
Proof.
  intros Huuid Hok Hcodec.
  destruct (createNotification_success _ _ _ _ _ Hok) as (b & Hb & ->).
  exists (with_ID new_id n). split.
  - apply (getNotification_found inboxID new_id b).
    + apply Get_SetEntry_same.
    + now apply Hcodec.
  - simpl. repeat split; try reflexivity. now apply is_uuid_nonempty.
Qed.

(** C10: the two read operations return the store they received, and a
    creation leaves the value under every key other than the composite
    key of the inbox and the generated identifier as it was. *)
Theorem storage_frame
        (inboxID notificationID new_id : string) (commit : option error)
        (n : Notification) (db : badger.DB) :
  snd (getInbox inboxID db) = db /\
  snd (getNotification inboxID notificationID db) = db /\
  forall key,
    key <> key_of inboxID new_id ->
    badger.Get key (snd (createNotification new_id commit inboxID n db))
    = badger.Get key db.
Proof.
  split; [| split].
  - rewrite getInbox_unfold. now destruct (getInbox_loop _ _ _) as [ns [e |]].
  - unfold getNotification, badger.View.
    destruct (badger.Get _ db) as [v | e]; [| reflexivity].
    now destruct (json_Unmarshal v).
  - intros key Hkey.
    destruct (snd (fst (createNotification new_id commit inboxID n db)))
      as [e |] eqn:Herr.
    + now rewrite (createNotification_failure _ _ _ _ _ _ Herr).
    + destruct (createNotification_success _ _ _ _ _ Herr) as (b & _ & ->).
      now apply Get_SetEntry_other.
Qed.

(** A creation changes the store by at most one write. *)
Lemma createNotification_writes_once
      (new_id : string) (commit : option error) (inboxID : string)
      (n : Notification) (db : badger.DB) :
  snd (createNotification new_id commit inboxID n db) = db \/
  exists b, snd (createNotification new_id commit inboxID n db)
            = badger.SetEntry (key_of inboxID new_id) b db.
Proof.
  destruct (snd (fst (createNotification new_id commit inboxID n db)))
    as [e |] eqn:Herr.
  - left. now apply (createNotification_failure _ _ _ _ _ _ Herr).
  - right. destruct (createNotification_success _ _ _ _ _ Herr) as (b & _ & Hdb).
    now exists b.
Qed.

(** Creations keep the keys of the store in ascending order. *)
Lemma createNotification_sorted
      (new_id : string) (commit : option error) (inboxID : string)
      (n : Notification) (db : badger.DB) :
  badger.sorted db ->
  badger.sorted (snd (createNotification new_id commit inboxID n db)).
Proof.
  intros Hs.
  destruct (createNotification_writes_once new_id commit inboxID n db)
    as [-> | [b ->]]; [exact Hs | now apply sorted_SetEntry].
Qed.

Lemma string_app_assoc (s t u : string) : (s ++ t) ++ u = s ++ (t ++ u).
Proof. induction s as [| a s IH]; simpl; [reflexivity | now rewrite IH]. Qed.

(** A composite key carries the prefix of its inbox. *)
Lemma key_of_has_prefix (inboxID id : string) :
  String.prefix (inboxID ++ "-") (key_of inboxID id) = true.
Proof.
  unfold key_of.
  replace (inboxID ++ "-" ++ id) with ((inboxID ++ "-") ++ id)
    by apply string_app_assoc.
  apply prefix_app.
Qed.

Lemma In_SetEntry (key val : string) (db : badger.DB) :
  In (key, val) (badger.SetEntry key val db).
Proof.
  induction db as [| [k v] rest IH]; simpl; [now left |].
  destruct (String.compare key k); simpl; auto.
Qed.

(** In a sorted store the scan for an inbox reaches the record that a
    creation in this inbox has written. *)
Lemma created_record_is_scanned
      (new_id : string) (commit : option error) (inboxID : string)
      (n : Notification) (db : badger.DB) :
  badger.sorted db ->
  snd (fst (createNotification new_id commit inboxID n db)) = None ->
  exists b,
    json_Marshal (with_ID new_id n) = Ok b /\
    In (key_of inboxID new_id, b)
       (scanned inboxID (snd (createNotification new_id commit inboxID n db))).
Proof.
  intros Hs Hok.
  destruct (createNotification_success _ _ _ _ _ Hok) as (b & Hb & ->).
  exists b. split; [exact Hb |].
  rewrite scanned_sorted by now apply sorted_SetEntry.
  apply filter_In. split; [apply In_SetEntry | apply key_of_has_prefix].
Qed.

Lemma SetEntry_In (key val k v : string) (db : badger.DB) :
  In (k, v) (badger.SetEntry key val db) -> k = key \/ In (k, v) db.
Proof.
  induction db as [| [k1 v1] rest IH]; simpl.
  - intros [[= <- <-] | []]. now left.
  - destruct (String.compare key k1); simpl.
    + intros [[= <- <-] | Hin]; [now left | right; now right].
    + intros [[= <- <-] | Hin]; [now left | now right].
    + intros [Heq | Hin]; [right; now left |].
      destruct (IH Hin) as [-> | Hrest]; [now left | right; now right].
Qed.

(** The keys of a store built by creations in one inbox are the keys it
    started with and the composite keys of the creations. *)
Lemma create_all_In (inboxID : string) (posts : list (string * Notification)) :
  forall (db : badger.DB) (k v : string),
    In (k, v) (create_all inboxID posts db) ->
    In (k, v) db \/ exists id n, In (id, n) posts /\ k = key_of inboxID id.
Proof.
  induction posts as [| [id n] rest IH]; intros db k v Hin; simpl in Hin.
  - now left.
  - apply IH in Hin as [Hin | (id' & n' & Hpost & ->)].
    + destruct (createNotification_writes_once id None inboxID n db)
        as [Hdb | [b Hdb]]; rewrite Hdb in Hin.
      * now left.
      * apply SetEntry_In in Hin as [-> | Hin]; [| now left].
        right. exists id, n. split; [now left | reflexivity].
    + right. exists id', n'. split; [now right | reflexivity].
Qed.

(** After creations in inbox [B] only, an inbox [A] whose prefix none of
    the created keys carries lists as the empty sequence. *)
Lemma getInbox_after_writes_elsewhere
      (A B : string) (posts : list (string * Notification)) :
  (forall id n, In (id, n) posts ->
                String.prefix (A ++ "-") (key_of B id) = false) ->
  getInbox A (create_all B posts badger.empty)
  = (([], None), create_all B posts badger.empty).
Proof.
  intros Hposts. apply getInbox_nothing_scanned, scanned_nil.
  intros k v Hin. apply create_all_In in Hin as [[] | (id & n & Hpost & ->)].
  now apply (Hposts id n).
Qed.

(** Every key that the scan for an inbox reaches carries the inbox
    identifier followed by the separator. *)
Lemma returns_from_key_prefix (A : string) (db : badger.DB) (i : nat)
      (k : string) (n : Notification) :
  returns_from_key A db i k n -> String.prefix (A ++ "-") k = true.
Proof.
  intros (v & Hnth & _). apply nth_error_In in Hnth.
  now apply (scanned_has_prefix A db k v).
Qed.

(** C4, amended: when [A] is a strict prefix of [B] and [B] does not
    continue [A] with the separator, no record that [getInbox A]
    returns was read from a storage key of inbox [B]. *)
Theorem getInbox_prefix_isolation
        (A B : string) (db : badger.DB) (i : nat) (k : string)
        (n : Notification) :
  strict_prefix A B ->
  String.prefix (A ++ "-") B = false ->
  returns_from_key A db i k n ->
  forall id, k <> key_of B id.
Proof.
  intros Hstrict Hsep Hret id ->.
  apply returns_from_key_prefix in Hret. unfold key_of in Hret.
  rewrite prefix_app_long in Hret; [congruence |].
  apply strict_prefix_length in Hstrict.
  rewrite append_length. simpl. lia.
Qed.

End StorageClaims.

(** ** Projection layer *)

Lemma set_index_middle {A : Type} (pre : list A) (x y : A) (suf : list A) :
  set_index (pre ++ x :: suf)%list (List.length pre) y = (pre ++ y :: suf)%list.
Proof. induction pre as [| h pre IH]; simpl; [reflexivity | now rewrite IH]. Qed.

(** The loop invariant of [mapNotificationsID]: the slots before the
    index are filled, the remaining slots are as many as the remaining
    notifications. *)
Lemma mapNotificationsID_loop_fills (transform : stringTransform)
      (ns : list Notification) :
  forall pre suf : list string,
    List.length suf = List.length ns ->
    mapNotificationsID_loop transform (List.length pre) ns (pre ++ suf)%list
    = (pre ++ map (fun n => transform (ID n)) ns)%list.
Proof.
  induction ns as [| n rest IH]; intros pre suf Hlen.
  - destruct suf; [reflexivity | discriminate].
  - destruct suf as [| x suf]; [discriminate |]. simpl.
    rewrite set_index_middle.
    replace (S (List.length pre)) with (List.length (pre ++ [transform (ID n)])%list)
      by (rewrite length_app; simpl; lia).
    replace (pre ++ transform (ID n) :: suf)%list
      with ((pre ++ [transform (ID n)]) ++ suf)%list
      by (now rewrite <- app_assoc).
    rewrite IH by (simpl in Hlen; lia).
    now rewrite <- app_assoc.
Qed.

Lemma mapNotificationsID_map (ns : list Notification) (transform : stringTransform) :
  mapNotificationsID ns transform = map (fun n => transform (ID n)) ns.
Proof.
  unfold mapNotificationsID, make.
  apply (mapNotificationsID_loop_fills transform ns []).
  apply repeat_length.
Qed.

(** C6: the container lists the identifiers of the given notifications,
    each mapped through the given function, one per notification and in
    the order given, repeated where the input repeats; its context is the
    LDP namespace and its identifier the given URI. *)
Theorem makeLDNInbox_lists_ids_in_order
        (selfURI : string) (makeID : stringTransform) (ns : list Notification) :
  inbox_Context (makeLDNInbox selfURI makeID ns) = "http://www.w3.org/ns/ldp" /\
  inbox_ID (makeLDNInbox selfURI makeID ns) = selfURI /\
  inbox_Contains (makeLDNInbox selfURI makeID ns)
  = map (fun n => makeID (ID n)) ns /\
  List.length (inbox_Contains (makeLDNInbox selfURI makeID ns)) = List.length ns /\
  forall i,
    nth_error (inbox_Contains (makeLDNInbox selfURI makeID ns)) i
    = option_map (fun n => makeID (ID n)) (nth_error ns i).
Proof.
  unfold makeLDNInbox. simpl. rewrite mapNotificationsID_map.
  repeat split.
  - apply length_map.
  - intros i. apply nth_error_map.
Qed.

(** C7: the member resource has the activity-streams context, the type
    [Announce], the mapped identifier, and the actor, object, target and
    updated fields of the notification as they are, for every
    notification. *)
Theorem makeLDNotification_copies_fields
        (makeID : stringTransform) (n : Notification) :
  ldn_Context (makeLDNotification makeID n)
  = "https://www.w3.org/ns/activitystreams" /\
  ldn_Type (makeLDNotification makeID n) = "Announce" /\
  ldn_ID (makeLDNotification makeID n) = makeID (ID n) /\
  ldn_Actor (makeLDNotification makeID n) = Actor n /\
  ldn_Object (makeLDNotification makeID n) = Object n /\
  ldn_Target (makeLDNotification makeID n) = Target n /\
  ldn_Updated (makeLDNotification makeID n) = Updated n.
Proof. repeat split. Qed.

(** ** Handlers *)

Lemma Header_Get_Set_same (key value : string) (h : http.Header) :
  http.Header_Get key (http.Header_Set key value h) = value.
Proof.
  induction h as [| [k v] rest IH]; simpl.
  - now rewrite String.eqb_refl.
  - destruct (String.eqb key k) eqn:He; simpl.
    + now rewrite String.eqb_refl.
    + now rewrite He.
Qed.

Lemma WriteHeader_header (code : Z) (w : http.ResponseWriter) :
  http.header (http.WriteHeader code w) = http.header w.
Proof. unfold http.WriteHeader. now destruct (http.wrote w). Qed.

Lemma WriteHeader_body (code : Z) (w : http.ResponseWriter) :
  http.body (http.WriteHeader code w) = http.body w.
Proof. unfold http.WriteHeader. now destruct (http.wrote w). Qed.

Lemma Write_body (b : string) (w : http.ResponseWriter) :
  http.body (http.Write b w) = (http.body w ++ [b])%list.
Proof. unfold http.Write. simpl. now rewrite WriteHeader_body. Qed.

Lemma Set_header_body (key value : string) (w : http.ResponseWriter) :
  http.body (http.Set_header key value w) = http.body w.
Proof. reflexivity. Qed.

Lemma Set_header_status (key value : string) (w : http.ResponseWriter) :
  http.status (http.Set_header key value w) = http.status w.
Proof. reflexivity. Qed.

(** The first status code that is written goes out. *)
Lemma WriteHeader_status (code : Z) (w : http.ResponseWriter) :
  http.wrote w = None -> http.status (http.WriteHeader code w) = Some code.
Proof. intros H. unfold http.status, http.WriteHeader. now rewrite H. Qed.

(** A body written after the status went out does not change the status. *)
Lemma Write_status (b : string) (w : http.ResponseWriter) :
  http.status w <> None -> http.status (http.Write b w) = http.status w.
Proof.
  unfold http.status, http.Write, http.WriteHeader. intros Hsent.
  destruct (http.wrote w) as [sent |] eqn:Hw; simpl.
  - now rewrite Hw.
  - now elim Hsent.
Qed.

Section HandlerClaims.

Context {codec : JSON}.

(** [createNotification] returns the zero record in every case: the
    generated identifier is not in its result. *)
Lemma createNotification_returns_zero
      (new_id : string) (commit : option error) (inboxID : string)
      (n : Notification) (db : badger.DB) :
  fst (fst (createNotification new_id commit inboxID n db)) = Notification_zero.
Proof.
  unfold createNotification, badger.Update. simpl.
  destruct (json_Marshal _) as [b | e]; [| reflexivity].
  now destruct commit.
Qed.

(** C2, as the code behaves: after a successful POST the [location]
    header ends in [/inbox/], with no identifier after it, while the
    record is stored under the generated identifier. *)
Theorem handleInbox_location_lacks_id
        (new_id : string) (commit : option error) (w : http.ResponseWriter)
        (r : http.Request) (db : badger.DB) (n : Notification) :
  http.Method r = http.MethodPost ->
  json_Decode (http.Body r) = Ok n ->
  snd (fst (createNotification new_id commit (http.mux_Vars r "URN") n db)) = None ->
  http.Header_Get "location" (http.header (fst (handleInbox new_id commit w r db)))
  = "http://" ++ http.Host r ++ "/texts/" ++ http.mux_Vars r "URN" ++ "/inbox/" /\
  exists b,
    badger.Get (key_of (http.mux_Vars r "URN") new_id)
               (snd (handleInbox new_id commit w r db)) = Ok b.
Proof.
  intros Hpost Hbody Hok. unfold handleInbox.
  rewrite Hpost, Hbody. simpl.
  pose proof (createNotification_returns_zero new_id commit
                (http.mux_Vars r "URN") n db) as Hzero.
  destruct (createNotification_success _ _ _ _ _ Hok) as (b & _ & Hdb).
  destruct (createNotification new_id commit (http.mux_Vars r "URN") n db)
    as [[notification err] db'].
  simpl in Hok, Hzero, Hdb. subst err notification db'. simpl. split.
  - rewrite WriteHeader_header. simpl. now rewrite Header_Get_Set_same.
  - exists b. apply Get_SetEntry_same.
Qed.

(** C9: for a request whose method is not GET, [handleNotification]
    writes [Not Found] with status 404, then still looks the
    notification up and writes the encoded resource as a second body
    of the same response. *)
Theorem handleNotification_non_GET_falls_through
        (w : http.ResponseWriter) (r : http.Request) (db : badger.DB) :
  http.Method r <> http.MethodGet ->
  http.body (fst (handleNotification w r db))
  = (http.body w ++
     ["Not Found";
      json_Encode_LDNotification
        (makeLDNotification
           (notificationURI r (http.mux_Vars r "URN"))
           (fst (fst (getNotification (http.mux_Vars r "URN")
                                      (http.mux_Vars r "ID") db))))])%list /\
  (http.wrote w = None ->
   http.status (fst (handleNotification w r db)) = Some 404%Z).
Proof.
  intros Hmethod. apply String.eqb_neq in Hmethod.
  unfold handleNotification. rewrite Hmethod. simpl negb. cbv iota.
  pose proof (getNotification_error_nil (http.mux_Vars r "URN")
                (http.mux_Vars r "ID") db) as Hnil.
  destruct (getNotification (http.mux_Vars r "URN") (http.mux_Vars r "ID") db)
    as [[notification err] db'].
  simpl in Hnil. subst err. cbn [fst]. split.
  - rewrite Write_body, Set_header_body, Write_body, WriteHeader_body.
    now rewrite <- app_assoc.
  - intros Hfresh.
    rewrite Write_status, Set_header_status, Write_status.
    + now apply WriteHeader_status.
    + rewrite (WriteHeader_status _ _ Hfresh). discriminate.
    + rewrite Set_header_status, Write_status;
        rewrite (WriteHeader_status _ _ Hfresh); discriminate.
Qed.

End HandlerClaims.

(** ** The concrete codec *)

Lemma read_string_escape (s rest : string) :
  MiniJSON.read_string (MiniJSON.escape s ++ String MiniJSON.quote rest)
  = Some (s, rest).
Proof.
  induction s as [| a s IH]; [reflexivity |].
  cbn [MiniJSON.escape].
  destruct (Ascii.eqb a MiniJSON.quote || Ascii.eqb a MiniJSON.backslash)%bool eqn:Hesc.
  - cbn [String.append MiniJSON.read_string].
    change (Ascii.eqb MiniJSON.backslash MiniJSON.quote) with false.
    change (Ascii.eqb MiniJSON.backslash MiniJSON.backslash) with true.
    cbv iota. now rewrite IH.
  - apply orb_false_elim in Hesc as [Hq Hb].
    cbn [String.append MiniJSON.read_string]. rewrite Hq, Hb. now rewrite IH.
Qed.

Lemma read_quoted_quoted (s rest : string) :
  MiniJSON.read_quoted (MiniJSON.quoted s ++ rest) = Some (s, rest).
Proof.
  unfold MiniJSON.read_quoted, MiniJSON.quoted. cbn [String.append MiniJSON.expect].
  change (Ascii.eqb MiniJSON.quote MiniJSON.quote) with true. cbv iota.
  rewrite string_app_assoc. apply read_string_escape.
Qed.

Lemma read_members_comma (fuel : nat) (k v rest : string) (n : Notification) :
  MiniJSON.read_members (S fuel) (MiniJSON.member k v ++ String "," rest) n
  = MiniJSON.read_members fuel rest (MiniJSON.set_field k v n).
Proof.
  unfold MiniJSON.member. cbn [MiniJSON.read_members].
  rewrite string_app_assoc, read_quoted_quoted.
  cbn [String.append MiniJSON.expect]. change (Ascii.eqb ":" ":") with true. cbv iota.
  now rewrite read_quoted_quoted.
Qed.

Lemma read_members_close (fuel : nat) (k v : string) (n : Notification) :
  MiniJSON.read_members (S fuel) (MiniJSON.member k v ++ "}") n
  = Some (MiniJSON.set_field k v n).
Proof.
  unfold MiniJSON.member. cbn [MiniJSON.read_members].
  rewrite string_app_assoc, read_quoted_quoted.
  cbn [String.append MiniJSON.expect]. change (Ascii.eqb ":" ":") with true. cbv iota.
  now rewrite read_quoted_quoted.
Qed.

Lemma marshal_length (n : Notification) :
  exists fuel, String.length (MiniJSON.marshal n) = 5 + fuel.
Proof.
  unfold MiniJSON.marshal, MiniJSON.member, MiniJSON.quoted.
  cbn. eexists. reflexivity.
Qed.

(** The concrete codec reads back every record that it wrote. *)
Lemma unmarshal_marshal (n : Notification) :
  MiniJSON.unmarshal (MiniJSON.marshal n) = Ok n.
Proof.
  unfold MiniJSON.unmarshal.
  destruct (marshal_length n) as [fuel ->].
  change (MiniJSON.marshal n) with
    (String "{"
       (MiniJSON.member "id" (ID n) ++ String ","
       (MiniJSON.member "actor" (Actor n) ++ String ","
       (MiniJSON.member "object" (Object n) ++ String ","
       (MiniJSON.member "target" (Target n) ++ String ","
       (MiniJSON.member "updated" (Updated n) ++ "}")))))).
  cbn [MiniJSON.expect]. change (Ascii.eqb "{" "{") with true. cbv iota.
  replace (String.eqb _ "}") with false by reflexivity.
  change (5 + fuel) with (S (S (S (S (S fuel))))).
  rewrite !read_members_comma, read_members_close.
  now destruct n.
Qed.

(** With the concrete codec the round trip of a creation needs no
    assumption on the codec. *)
Lemma create_then_get_concrete
      (new_id inboxID : string) (n : Notification) (db : badger.DB) :
  getNotification (codec := MiniJSON.codec) inboxID new_id
    (snd (createNotification (codec := MiniJSON.codec) new_id None inboxID n db))
  = ((with_ID new_id n, None),
     snd (createNotification (codec := MiniJSON.codec) new_id None inboxID n db)).
Proof.
  apply (getNotification_found (codec := MiniJSON.codec) inboxID new_id
           (MiniJSON.marshal (with_ID new_id n))).
  - apply Get_SetEntry_same.
  - apply unmarshal_marshal.
Qed.

(** ** The package on concrete requests *)

(** The prefix scan for inbox [work] returns the record that was created
    in inbox [work-1]: the claim of C4 as stated fails. *)
Lemma getInbox_prefix_collision :
  strict_prefix "work" "work-1" /\
  returns_from_key (codec := MiniJSON.codec) "work" Sample.store_work_1 0
                   (key_of "work-1" Sample.id1) Sample.n1_stored /\
  ~ (forall (A B : string) (db : badger.DB) (i : nat) (k : string)
            (n : Notification),
        strict_prefix A B ->
        returns_from_key (codec := MiniJSON.codec) A db i k n ->
        forall id, k <> key_of B id).
Proof.
  assert (Hstrict : strict_prefix "work" "work-1")
    by (split; [reflexivity | discriminate]).
  assert (Hret : returns_from_key (codec := MiniJSON.codec) "work"
                   Sample.store_work_1 0 (key_of "work-1" Sample.id1)
                   Sample.n1_stored).
  { exists (MiniJSON.marshal Sample.n1_stored). repeat split. }
  repeat split; try assumption; try discriminate.
  intros Hclaim.
  apply (Hclaim "work" "work-1" Sample.store_work_1 0
                (key_of "work-1" Sample.id1) Sample.n1_stored Hstrict Hret
                Sample.id1).
  reflexivity.
Qed.

Lemma getInbox_prefix_isolation_witness :
  returns_from_key (codec := MiniJSON.codec) "work" Sample.store_two 0
                   (key_of "work" Sample.id1) Sample.n1_stored /\
  key_of "work" Sample.id1 <> key_of "work1" Sample.id2.
Proof.
  assert (Hret : returns_from_key (codec := MiniJSON.codec) "work"
                   Sample.store_two 0 (key_of "work" Sample.id1)
                   Sample.n1_stored).
  { exists (MiniJSON.marshal Sample.n1_stored). repeat split. }
  split; [exact Hret |].
  apply (@getInbox_prefix_isolation MiniJSON.codec "work" "work1"
           Sample.store_two 0 (key_of "work" Sample.id1) Sample.n1_stored).
  - split; [reflexivity | discriminate].
  - reflexivity.
  - exact Hret.
Defined.

Lemma getInbox_empty_inbox_witness :
  getInbox (codec := MiniJSON.codec) "work1" Sample.store_work_1
  = (([], None), Sample.store_work_1).
Proof.
  apply (@getInbox_empty_inbox MiniJSON.codec "work1" Sample.store_work_1).
  intros k v Hin. vm_compute in Hin.
  destruct Hin as [[= <- <-] | []]. reflexivity.
Defined.

Lemma getNotification_failure_reported_as_success_witness :
  getNotification (codec := MiniJSON.codec) "work1" "nope" badger.empty
  = ((Notification_zero, None), badger.empty).
Proof.
  apply (@getNotification_failure_reported_as_success MiniJSON.codec
           "work1" "nope" badger.empty).
  left. intros v [].
Defined.

(** A stored value that does not decode is reported like a missing key. *)
Example getNotification_corrupt_value :
  getNotification (codec := MiniJSON.codec) "work1" "x" [("work1-x", "not json")]
  = ((Notification_zero, None), [("work1-x", "not json")]).
Proof. reflexivity. Qed.

Lemma create_then_get_round_trip_witness :
  exists r,
    getNotification (codec := MiniJSON.codec) "work1" Sample.id1
      (snd (createNotification (codec := MiniJSON.codec) Sample.id1 None
                               "work1" Sample.n1 badger.empty))
    = ((r, None),
       snd (createNotification (codec := MiniJSON.codec) Sample.id1 None
                               "work1" Sample.n1 badger.empty)) /\
    ID r = Sample.id1 /\ ID r <> EmptyString /\
    Actor r = "u1" /\ Object r = "o1" /\ Target r = "t1" /\
    Updated r = "2024-01-01".
Proof.
  apply (@create_then_get_round_trip MiniJSON.codec Sample.id1 None "work1"
           Sample.n1 badger.empty).
  - reflexivity.
  - reflexivity.
  - intros b [= <-]. reflexivity.
Defined.

Lemma storage_frame_witness :
  badger.Get (key_of "work1" (Sample.nth_id 0))
             (snd (createNotification (codec := MiniJSON.codec) Sample.id2 None
                                      "work1" Sample.n1 (Sample.store 1)))
  = badger.Get (key_of "work1" (Sample.nth_id 0)) (Sample.store 1).
Proof.
  apply (proj2 (proj2 (@storage_frame MiniJSON.codec "work1" "x" Sample.id2 None
                         Sample.n1 (Sample.store 1)))).
  vm_compute. discriminate.
Defined.

Lemma handleInbox_location_lacks_id_witness :
  http.Header_Get "location"
    (http.header (fst (handleInbox (codec := MiniJSON.codec) Sample.id1 None
                         http.NewResponseWriter Sample.post_work1 badger.empty)))
  = "http://example.org/texts/work1/inbox/" /\
  exists b,
    badger.Get (key_of "work1" Sample.id1)
      (snd (handleInbox (codec := MiniJSON.codec) Sample.id1 None
              http.NewResponseWriter Sample.post_work1 badger.empty)) = Ok b.
Proof.
  apply (@handleInbox_location_lacks_id MiniJSON.codec Sample.id1 None
           http.NewResponseWriter Sample.post_work1 badger.empty Sample.n1).
  - reflexivity.
  - reflexivity.
  - reflexivity.
Defined.

Lemma handleNotification_non_GET_falls_through_witness :
  http.body (fst (handleNotification (codec := MiniJSON.codec)
                    http.NewResponseWriter Sample.delete_one (Sample.store 1)))
  = ["Not Found";
     MiniJSON.encode_notification
       (makeLDNotification
          (notificationURI Sample.delete_one "work1")
          (mkNotification (Sample.nth_id 0) "u1" "o1" "t1" "2024-01-01"))] /\
  http.status (fst (handleNotification (codec := MiniJSON.codec)
                      http.NewResponseWriter Sample.delete_one (Sample.store 1)))
  = Some 404%Z.
Proof.
  destruct (@handleNotification_non_GET_falls_through MiniJSON.codec
              http.NewResponseWriter Sample.delete_one (Sample.store 1))
    as [Hbody Hstatus].
  - discriminate.
  - split; [exact Hbody | exact (Hstatus eq_refl)].
Defined.

(** C3, as the code behaves: with 129 notifications in one inbox,
    [getInbox] returns all 129 of them, more than [maxResponseSize]. *)
Theorem getInbox_returns_more_than_maxResponseSize :
  snd (fst (getInbox (codec := MiniJSON.codec) "work1" (Sample.store 129))) = None /\
  List.length (fst (fst (getInbox (codec := MiniJSON.codec) "work1"
                                  (Sample.store 129)))) = 129 /\
  maxResponseSize < 129.
Proof.
  split; [| split].
  - vm_compute. reflexivity.
  - vm_compute. reflexivity.
  - unfold maxResponseSize. lia.
Qed.

(** * Further properties of the storage layer *)

Lemma prefix_split (p k : string) :
  String.prefix p k = true -> exists s, k = p ++ s.
Proof.
  revert k. induction p as [| a p IH]; intros k Hp.
  - now exists k.
  - destruct k as [| b k]; [discriminate |].
    rewrite prefix_cons in Hp. apply andb_prop in Hp as [Hab Hpk].
    apply Ascii.eqb_eq in Hab. subst b.
    destruct (IH k Hpk) as [s ->]. now exists s.
Qed.

(** In a sorted store a key is stored once: the lookup of the key of an
    item finds the value of this item. *)
Lemma sorted_Get (db : badger.DB) (k v : string) :
  badger.sorted db -> In (k, v) db -> badger.Get k db = Ok v.
Proof.
  induction db as [| [k1 v1] rest IH]; intros Hs Hin; [destruct Hin |].
  simpl. destruct Hin as [[= -> ->] | Hin].
  - now rewrite String.eqb_refl.
  - pose proof (sorted_head_below k1 v1 rest Hs k v Hin) as Hlt.
    destruct (String.eqb k k1) eqn:He.
    + apply String.eqb_eq in He. subst k1. rewrite compare_refl in Hlt.
      discriminate.
    + apply IH; [now apply sorted_tail in Hs | exact Hin].
Qed.

Lemma SetEntry_In_item (key val : string) (item : badger.Item) (db : badger.DB) :
  In item (badger.SetEntry key val db) -> item = (key, val) \/ In item db.
Proof.
  induction db as [| [k1 v1] rest IH]; simpl.
  - intros [<- | []]. now left.
  - destruct (String.compare key k1); simpl.
    + intros [<- | Hin]; [now left | right; now right].
    + intros [<- | Hin]; [now left | now right].
    + intros [<- | Hin]; [right; now left |].
      destruct (IH Hin) as [-> | Hrest]; [now left | right; now right].
Qed.

Lemma Forall2_In_left {A B : Type} (R : A -> B -> Prop) (l : list A) (l' : list B)
      (x : A) :
  Forall2 R l l' -> In x l -> exists y, In y l' /\ R x y.
Proof.
  induction 1 as [| a b l l' Hab _ IH]; intros Hin; [destruct Hin |].
  destruct Hin as [-> | Hin].
  - exists b. split; [now left | exact Hab].
  - destruct (IH Hin) as (y & Hy & Hxy). exists y. split; [now right | exact Hxy].
Qed.

(** Two composite keys of separator-free inboxes agree on a common
    prefix up to the first separator only when the inboxes are equal. *)
Lemma dash_free_prefix (A B rest : string) :
  no_dash A = true -> no_dash B = true ->
  String.prefix (A ++ "-") (B ++ "-" ++ rest) = true -> A = B.
Proof.
  revert B. induction A as [| a A IH]; intros [| b B] HA HB Hp.
  - reflexivity.
  - simpl in HB. apply andb_prop in HB as [Hb _].
    change (String.prefix (String "-" EmptyString)
                          (String b (B ++ "-" ++ rest)) = true) in Hp.
    rewrite prefix_cons in Hp. apply andb_prop in Hp as [Hsep _].
    rewrite Ascii.eqb_sym, Hsep in Hb. discriminate.
  - simpl in HA. apply andb_prop in HA as [Ha _].
    change (String.prefix (String a (A ++ "-"))
                          (String "-" rest) = true) in Hp.
    rewrite prefix_cons in Hp. apply andb_prop in Hp as [Hsep _].
    rewrite Hsep in Ha. discriminate.
  - simpl in HA, HB. apply andb_prop in HA as [_ HA].
    apply andb_prop in HB as [_ HB].
    simpl String.append in Hp. rewrite prefix_cons in Hp.
    apply andb_prop in Hp as [Hab Hp]. apply Ascii.eqb_eq in Hab. subst b.
    f_equal. now apply IH.
Qed.

Lemma append_cancel (p s t : string) : p ++ s = p ++ t -> s = t.
Proof.
  induction p as [| a p IH]; simpl; [auto |]. intros [= H]. now apply IH.
Qed.

Section StorageMore.

Context {codec : JSON}.

(** The loop over a scan whose items all decode returns their records. *)
Lemma getInbox_sorted_decoded (inboxID : string) (db : badger.DB) :
  badger.sorted db ->
  (forall item, In item db ->
                String.prefix (inboxID ++ "-") (fst item) = true ->
                exists n, decodes item n) ->
  exists ns,
    getInbox inboxID db = ((ns, None), db) /\
    Forall2 decodes
            (filter (fun item => String.prefix (inboxID ++ "-") (fst item)) db)
            ns.
Proof.
  intros Hs Hdec. rewrite getInbox_unfold.
  destruct (getInbox_loop_total (inboxID ++ "-")
              (badger.Seek (inboxID ++ "-") db)) with (acc := @nil Notification)
    as [ns Hloop].
  { intros [k v] Hin. apply Hdec.
    - now apply (scanned_incl inboxID).
    - now apply (scanned_has_prefix inboxID db k v). }
  rewrite Hloop. exists ns. split; [reflexivity |].
  apply getInbox_loop_ok in Hloop as (ns' & -> & Hall). simpl.
  fold (scanned inboxID db) in Hall. now rewrite (scanned_sorted _ _ Hs) in Hall.
Qed.

(** X1: on a store with ascending keys in which the values of an inbox
    decode, [getInbox] returns the nil error and exactly the decoded
    records of the items whose key starts with the inbox identifier and
    the separator, one per item and in ascending key order; the items of
    other prefixes need not decode. *)
Theorem getInbox_lists_inbox_in_key_order (inboxID : string) (db : badger.DB) :
  badger.sorted db ->
  (forall item, In item db ->
                String.prefix (inboxID ++ "-") (fst item) = true ->
                exists n, decodes item n) ->
  exists ns,
    getInbox inboxID db = ((ns, None), db) /\
    Forall2 decodes
            (filter (fun item => String.prefix (inboxID ++ "-") (fst item)) db)
            ns /\
    List.length ns = List.length (keys_of_inbox inboxID db).
Proof.
  intros Hs Hdec.
  destruct (getInbox_sorted_decoded inboxID db Hs Hdec) as (ns & Hget & Hall).
  exists ns. repeat split; [exact Hget | exact Hall |].
  apply Forall2_length in Hall. rewrite <- Hall. unfold keys_of_inbox. clear.
  induction db as [| [k v] rest IH]; simpl; [reflexivity |].
  destruct (String.prefix (inboxID ++ "-") k); simpl; now rewrite IH.
Qed.

Lemma getInbox_loop_first_bad (prefix : string) (good : list badger.Item) :
  forall (it : list badger.Item) (bad : badger.Item) (rest : list badger.Item)
         (acc : list Notification) (e : error),
    while_prefix prefix it = (good ++ bad :: rest)%list ->
    Forall (fun item => exists n, decodes item n) good ->
    json_Unmarshal (snd bad) = Err e ->
    exists ns, getInbox_loop prefix it acc = (ns, Some e).
Proof.
  induction good as [| g good IH]; intros it bad rest acc e Hscan Hgood Hbad;
    destruct it as [| [k v] next]; simpl in Hscan; try discriminate;
    destruct (String.prefix prefix k) eqn:Hp; try discriminate;
    simpl; rewrite Hp.
  - injection Hscan as <- _. simpl in Hbad. rewrite Hbad. now exists acc.
  - injection Hscan as <- Hnext. inversion Hgood as [| ? ? [n Hn] Hgood']; subst.
    unfold decodes in Hn. simpl in Hn. rewrite Hn.
    now apply (IH next bad rest).
Qed.

(** X2: when the scan of an inbox meets a value that does not decode,
    after values that decode, [getInbox] returns no record at all and the
    decoding error of that value; the records read before it are
    dropped. *)
Theorem getInbox_first_bad_value_aborts
        (inboxID : string) (db : badger.DB) (good : list badger.Item)
        (bad : badger.Item) (rest : list badger.Item) (e : error) :
  scanned inboxID db = (good ++ bad :: rest)%list ->
  Forall (fun item => exists n, decodes item n) good ->
  json_Unmarshal (snd bad) = Err e ->
  getInbox inboxID db = (([], Some e), db).
Proof.
  intros Hscan Hgood Hbad. rewrite getInbox_unfold.
  destruct (getInbox_loop_first_bad (inboxID ++ "-") good
              (badger.Seek (inboxID ++ "-") db) bad rest [] e Hscan Hgood Hbad)
    as [ns ->].
  reflexivity.
Qed.

(** X3: a notification that was created is listed: on a store with
    ascending keys in which the values of the inbox decode, after a
    creation that returned the nil error [getInbox] of the same inbox
    returns the nil error and a sequence that holds the created record. *)
Theorem created_record_is_listed
        (new_id : string) (commit : option error) (inboxID : string)
        (n : Notification) (db : badger.DB) :
  badger.sorted db ->
  (forall item, In item db ->
                String.prefix (inboxID ++ "-") (fst item) = true ->
                exists m, decodes item m) ->
  snd (fst (createNotification new_id commit inboxID n db)) = None ->
  (forall b, json_Marshal (with_ID new_id n) = Ok b ->
             json_Unmarshal b = Ok (with_ID new_id n)) ->
  exists ns,
    getInbox inboxID (snd (createNotification new_id commit inboxID n db))
    = ((ns, None), snd (createNotification new_id commit inboxID n db)) /\
    In (with_ID new_id n) ns.
Proof.
  intros Hs Hdec Hok Hcodec.
  destruct (createNotification_success _ _ _ _ _ Hok) as (b & Hb & ->).
  destruct (getInbox_sorted_decoded inboxID
              (badger.SetEntry (key_of inboxID new_id) b db))
    as (ns & Hget & Hall).
  - now apply sorted_SetEntry.
  - intros item Hin Hp. apply SetEntry_In_item in Hin as [-> | Hin].
    + exists (with_ID new_id n). now apply Hcodec.
    + now apply Hdec.
  - exists ns. split; [exact Hget |].
    destruct (Forall2_In_left _ _ _ (key_of inboxID new_id, b) Hall)
      as (m & Hm & Hdecodes).
    + apply filter_In. split; [apply In_SetEntry | apply key_of_has_prefix].
    + unfold decodes in Hdecodes. simpl in Hdecodes.
      rewrite (Hcodec b Hb) in Hdecodes. now injection Hdecodes as <-.
Qed.

(** X4: every record that [getInbox] lists can be fetched on its own: on
    a store with ascending keys, a record listed from key [k] has a key
    of the form inbox, separator, identifier, and [getNotification] of
    the inbox and this identifier returns the same record. *)
Theorem listed_record_is_retrievable
        (inboxID : string) (db : badger.DB) (i : nat) (k : string)
        (n : Notification) :
  badger.sorted db ->
  returns_from_key inboxID db i k n ->
  exists id,
    k = key_of inboxID id /\
    getNotification inboxID id db = ((n, None), db).
Proof.
  intros Hs (v & Hnth & Hv & _). apply nth_error_In in Hnth.
  pose proof (scanned_has_prefix _ _ _ _ Hnth) as Hp.
  apply prefix_split in Hp as [id ->].
  exists id. split; [unfold key_of; apply string_app_assoc |].
  apply (getNotification_found inboxID id v); [| exact Hv].
  unfold key_of. rewrite <- string_app_assoc.
  apply sorted_Get; [exact Hs | now apply (scanned_incl inboxID)].
Qed.

(** X5: composite keys of inboxes whose identifiers hold no separator
    are unambiguous: two such keys are equal only for the same inbox and
    the same notification identifier, whatever the identifiers of the
    notifications hold. *)
Theorem key_of_injective_dash_free (A B id id' : string) :
  no_dash A = true -> no_dash B = true ->
  key_of A id = key_of B id' -> A = B /\ id = id'.
Proof.
  intros HA HB Hkey.
  assert (HAB : A = B).
  { apply (dash_free_prefix A B id' HA HB). fold (key_of B id').
    rewrite <- Hkey. apply key_of_has_prefix. }
  subst B. split; [reflexivity |].
  unfold key_of in Hkey. apply append_cancel in Hkey.
  now apply (append_cancel "-").
Qed.

(** X6: between two different inboxes whose identifiers hold no
    separator the prefix scan is isolated: no record that [getInbox A]
    returns was read from a storage key of inbox [B]. *)
Theorem getInbox_isolation_dash_free
        (A B : string) (db : badger.DB) (i : nat) (k : string)
        (n : Notification) :
  no_dash A = true -> no_dash B = true -> A <> B ->
  returns_from_key A db i k n ->
  forall id, k <> key_of B id.
Proof.
  intros HA HB Hne Hret id ->.
  apply returns_from_key_prefix in Hret.
  apply Hne. now apply (dash_free_prefix A B id).
Qed.

(** X7: the composite key does not record where the inbox identifier
    ends: a notification created in inbox [A-s] under identifier [id] is
    returned by the lookup in inbox [A] of the identifier [s-id]. *)
Theorem getNotification_reads_across_inboxes
        (new_id : string) (commit : option error) (A s : string)
        (n : Notification) (db : badger.DB) :
  snd (fst (createNotification new_id commit (A ++ "-" ++ s) n db)) = None ->
  (forall b, json_Marshal (with_ID new_id n) = Ok b ->
             json_Unmarshal b = Ok (with_ID new_id n)) ->
  getNotification A (s ++ "-" ++ new_id)
                  (snd (createNotification new_id commit (A ++ "-" ++ s) n db))
  = ((with_ID new_id n, None),
     snd (createNotification new_id commit (A ++ "-" ++ s) n db)).
Proof.
  intros Hok Hcodec.
  destruct (createNotification_success _ _ _ _ _ Hok) as (b & Hb & ->).
  apply (getNotification_found A (s ++ "-" ++ new_id) b); [| now apply Hcodec].
  replace (key_of A (s ++ "-" ++ new_id)) with (key_of (A ++ "-" ++ s) new_id).
  - apply Get_SetEntry_same.
  - unfold key_of. rewrite !string_app_assoc. reflexivity.
Qed.

End StorageMore.

(** * Further properties of the handlers *)

Lemma Header_Get_Set_other (key key' value : string) (h : http.Header) :
  key <> key' ->
  http.Header_Get key (http.Header_Set key' value h) = http.Header_Get key h.
Proof.
  intros Hne. apply String.eqb_neq in Hne.
  induction h as [| [k v] rest IH]; simpl.
  - now rewrite Hne.
  - destruct (String.eqb key' k) eqn:He; simpl.
    + apply String.eqb_eq in He. subst k. now rewrite Hne.
    + destruct (String.eqb key k); [reflexivity | exact IH].
Qed.


Lemma Write_sent_fresh (b : string) (w : http.ResponseWriter) :
  http.wrote w = None ->
  sent (http.Write b w) = http.header w /\
  http.status (http.Write b w) = Some 200%Z.
Proof.
  intros H. unfold sent, http.status, http.Write, http.WriteHeader.
  rewrite H. simpl. auto.
Qed.

(** What [http.Error] sends on a response that has no status yet. *)
Lemma Error_response (w : http.ResponseWriter) (msg : string) (code : Z) :
  http.wrote w = None ->
  http.status (http.Error w msg code) = Some code /\
  http.body (http.Error w msg code)
  = (http.body w ++ [(msg ++ String "010"%char EmptyString)%string])%list /\
  http.Header_Get "Content-Type" (sent (http.Error w msg code))
  = "text/plain; charset=utf-8".
Proof.
  intros H. unfold http.Error, http.Write, http.WriteHeader, http.Set_header,
             http.status, sent. simpl. rewrite H. simpl. repeat split.
  rewrite Header_Get_Set_other by discriminate. apply Header_Get_Set_same.
Qed.

(** The member URIs of the container are the URIs under which
    [handleNotification] serves the members. *)
Lemma inboxURI_member (r : http.Request) (inboxURN id : string) :
  inboxURI r inboxURN ++ "/" ++ id = notificationURI r inboxURN id.
Proof.
  unfold inboxURI, notificationURI. rewrite !string_app_assoc. reflexivity.
Qed.

Section HandlersMore.

Context {codec : JSON}.

Lemma handleInbox_get_unfold
      (new_id : string) (commit : option error) (w : http.ResponseWriter)
      (r : http.Request) (db : badger.DB) :
  http.Method r = http.MethodGet ->
  handleInbox new_id commit w r db =
  match snd (fst (getInbox (http.mux_Vars r "URN") db)) with
  | Some e => (http.Error w (err_Error e) http.StatusBadRequest, db)
  | None =>
    (http.Write
       (json_Encode_LDNInbox
          (mkLDNInbox "http://www.w3.org/ns/ldp"
             (inboxURI r (http.mux_Vars r "URN"))
             (map (fun n => notificationURI r (http.mux_Vars r "URN") (ID n))
                  (fst (fst (getInbox (http.mux_Vars r "URN") db))))))
       (http.Set_header "content-type" "application/ld+json" w), db)
  end.
Proof.
  intros Hget. unfold handleInbox. rewrite Hget. simpl String.eqb. cbv iota.
  rewrite getInbox_unfold.
  destruct (getInbox_loop _ _ _) as [ns [e |]]; simpl; [reflexivity |].
  unfold makeLDNInbox. rewrite mapNotificationsID_map. do 4 f_equal.
  apply map_ext. intros n. apply inboxURI_member.
Qed.

Lemma handleInbox_post_unfold
      (new_id : string) (commit : option error) (w : http.ResponseWriter)
      (r : http.Request) (db : badger.DB) (n : Notification) :
  http.Method r = http.MethodPost ->
  json_Decode (http.Body r) = Ok n ->
  handleInbox new_id commit w r db =
  match snd (fst (createNotification new_id commit (http.mux_Vars r "URN") n db)) with
  | Some e => (http.Error w (err_Error e) http.StatusBadRequest, db)
  | None =>
    (http.WriteHeader 201
       (http.Set_header "location"
          (notificationURI r (http.mux_Vars r "URN") EmptyString)
          (http.Set_header "content-type" "application/ld+json" w)),
     snd (createNotification new_id commit (http.mux_Vars r "URN") n db))
  end.
Proof.
  intros Hpost Hbody. unfold handleInbox. rewrite Hpost, Hbody. simpl String.eqb.
  cbv iota.
  pose proof (createNotification_returns_zero new_id commit
                (http.mux_Vars r "URN") n db) as Hzero.
  destruct (snd (fst (createNotification new_id commit (http.mux_Vars r "URN") n db)))
    as [e |] eqn:Herr.
  - pose proof (createNotification_failure _ _ _ _ _ _ Herr) as Hdb.
    destruct (createNotification new_id commit (http.mux_Vars r "URN") n db)
      as [[notification err] db'].
    simpl in Herr, Hdb. now subst err db'.
  - destruct (createNotification new_id commit (http.mux_Vars r "URN") n db)
      as [[notification err] db'].
    simpl in Herr, Hzero. now subst err notification.
Qed.

Lemma handleNotification_get_unfold
      (w : http.ResponseWriter) (r : http.Request) (db : badger.DB) :
  http.Method r = http.MethodGet ->
  handleNotification w r db =
  (http.Write
     (json_Encode_LDNotification
        (makeLDNotification
           (notificationURI r (http.mux_Vars r "URN"))
           (fst (fst (getNotification (http.mux_Vars r "URN")
                                      (http.mux_Vars r "ID") db)))))
     (http.Set_header "content-type" "application/ld+json" w), db).
Proof.
  intros Hget. unfold handleNotification. rewrite Hget. simpl negb. cbv iota.
  pose proof (getNotification_error_nil (http.mux_Vars r "URN")
                (http.mux_Vars r "ID") db) as Hnil.
  assert (Hdb : snd (getNotification (http.mux_Vars r "URN")
                                     (http.mux_Vars r "ID") db) = db).
  { unfold getNotification, badger.View.
    destruct (badger.Get _ db) as [v | e]; [| reflexivity].
    now destruct (json_Unmarshal v). }
  destruct (getNotification (http.mux_Vars r "URN") (http.mux_Vars r "ID") db)
    as [[notification err] db'].
  simpl in Hnil, Hdb. now subst err db'.
Qed.

(** What a body written with a content type sends on a response that
    has no status yet. *)
Lemma Write_json_response (b : string) (w : http.ResponseWriter) :
  http.wrote w = None ->
  let w' := http.Write b (http.Set_header "content-type" "application/ld+json" w) in
  http.status w' = Some 200%Z /\
  http.Header_Get "content-type" (sent w') = "application/ld+json" /\
  http.body w' = (http.body w ++ [b])%list.
Proof.
  intros H. cbv zeta.
  destruct (Write_sent_fresh b
              (http.Set_header "content-type" "application/ld+json" w) H)
    as [Hsent Hstatus].
  rewrite Hsent, Hstatus, Write_body. simpl.
  now rewrite Header_Get_Set_same.
Qed.

(** X8: a GET of an inbox whose listing succeeds answers with status
    200 and content type [application/ld+json]; the one body is the
    encoded container whose identifier is the inbox URI and whose members
    are the notification URIs of the listed records, in their order; the
    store is as before. *)
Theorem handleInbox_get_lists_inbox
        (new_id : string) (commit : option error) (w : http.ResponseWriter)
        (r : http.Request) (db db' : badger.DB) (ns : list Notification) :
  http.Method r = http.MethodGet ->
  http.wrote w = None ->
  getInbox (http.mux_Vars r "URN") db = ((ns, None), db') ->
  http.status (fst (handleInbox new_id commit w r db)) = Some 200%Z /\
  http.Header_Get "content-type" (sent (fst (handleInbox new_id commit w r db)))
  = "application/ld+json" /\
  http.body (fst (handleInbox new_id commit w r db))
  = (http.body w ++
     [json_Encode_LDNInbox
        (mkLDNInbox "http://www.w3.org/ns/ldp"
           (inboxURI r (http.mux_Vars r "URN"))
           (map (fun n => notificationURI r (http.mux_Vars r "URN") (ID n)) ns))])%list /\
  snd (handleInbox new_id commit w r db) = db.
Proof.
  intros Hget Hfresh Hlist. rewrite (handleInbox_get_unfold _ _ _ _ _ Hget).
  rewrite Hlist. cbn [fst snd].
  destruct (Write_json_response
              (json_Encode_LDNInbox
                 (mkLDNInbox "http://www.w3.org/ns/ldp"
                    (inboxURI r (http.mux_Vars r "URN"))
                    (map (fun n => notificationURI r (http.mux_Vars r "URN") (ID n)) ns)))
              w Hfresh) as (Hs & Hh & Hb).
  auto.
Qed.

(** X9: a GET of an inbox whose listing fails answers with status 400,
    content type text/plain and the error text followed by a newline as
    the body; the store is as before. *)
Theorem handleInbox_get_failure
        (new_id : string) (commit : option error) (w : http.ResponseWriter)
        (r : http.Request) (db : badger.DB) (e : error) :
  http.Method r = http.MethodGet ->
  http.wrote w = None ->
  snd (fst (getInbox (http.mux_Vars r "URN") db)) = Some e ->
  http.status (fst (handleInbox new_id commit w r db)) = Some 400%Z /\
  http.Header_Get "Content-Type" (sent (fst (handleInbox new_id commit w r db)))
  = "text/plain; charset=utf-8" /\
  http.body (fst (handleInbox new_id commit w r db))
  = (http.body w ++ [(err_Error e ++ String "010"%char EmptyString)%string])%list /\
  snd (handleInbox new_id commit w r db) = db.
Proof.
  intros Hget Hfresh Herr. rewrite (handleInbox_get_unfold _ _ _ _ _ Hget).
  rewrite Herr. cbn [fst snd].
  destruct (Error_response w (err_Error e) http.StatusBadRequest Hfresh)
    as (Hs & Hb & Hh).
  auto.
Qed.

(** X10: a POST whose body does not decode answers with status 400 and
    the text of the decoding error, and creates nothing: the store is as
    before. *)
Theorem handleInbox_post_bad_body
        (new_id : string) (commit : option error) (w : http.ResponseWriter)
        (r : http.Request) (db : badger.DB) (e : error) :
  http.Method r = http.MethodPost ->
  http.wrote w = None ->
  json_Decode (http.Body r) = Err e ->
  http.status (fst (handleInbox new_id commit w r db)) = Some 400%Z /\
  http.body (fst (handleInbox new_id commit w r db))
  = (http.body w ++ [(err_Error e ++ String "010"%char EmptyString)%string])%list /\
  snd (handleInbox new_id commit w r db) = db.
Proof.
  intros Hpost Hfresh Hbody. unfold handleInbox. rewrite Hpost, Hbody.
  simpl String.eqb. cbv iota. cbn [fst snd].
  destruct (Error_response w (err_Error e) http.StatusBadRequest Hfresh)
    as (Hs & Hb & _).
  auto.
Qed.

(** X11: a POST whose creation fails, in serialisation or in the commit,
    answers with status 400 and the text of the error, and the store is
    as before. *)
Theorem handleInbox_post_create_failure
        (new_id : string) (commit : option error) (w : http.ResponseWriter)
        (r : http.Request) (db : badger.DB) (n : Notification) (e : error) :
  http.Method r = http.MethodPost ->
  http.wrote w = None ->
  json_Decode (http.Body r) = Ok n ->
  snd (fst (createNotification new_id commit (http.mux_Vars r "URN") n db)) = Some e ->
  http.status (fst (handleInbox new_id commit w r db)) = Some 400%Z /\
  http.body (fst (handleInbox new_id commit w r db))
  = (http.body w ++ [(err_Error e ++ String "010"%char EmptyString)%string])%list /\
  snd (handleInbox new_id commit w r db) = db.
Proof.
  intros Hpost Hfresh Hbody Herr.
  rewrite (handleInbox_post_unfold _ _ _ _ _ n Hpost Hbody), Herr. cbn [fst snd].
  destruct (Error_response w (err_Error e) http.StatusBadRequest Hfresh)
    as (Hs & Hb & _).
  auto.
Qed.


(** X13: a request to an inbox with a method other than POST and GET
    answers with status 404 and the body [Not Found] followed by a
    newline; the store is as before. *)
Theorem handleInbox_other_method
        (new_id : string) (commit : option error) (w : http.ResponseWriter)
        (r : http.Request) (db : badger.DB) :
  http.Method r <> http.MethodPost ->
  http.Method r <> http.MethodGet ->
  http.wrote w = None ->
  http.status (fst (handleInbox new_id commit w r db)) = Some 404%Z /\
  http.body (fst (handleInbox new_id commit w r db))
  = (http.body w ++ [("Not Found" ++ String "010"%char EmptyString)%string])%list /\
  snd (handleInbox new_id commit w r db) = db.
Proof.
  intros Hpost Hget Hfresh. apply String.eqb_neq in Hpost, Hget.
  unfold handleInbox. rewrite Hpost, Hget. cbn [fst snd].
  destruct (Error_response w "Not Found" http.StatusNotFound Hfresh)
    as (Hs & Hb & _).
  auto.
Qed.

(** X14: whatever the request, [handleInbox] changes the value under no
    key other than the composite key of the inbox of the request and the
    generated identifier, and a request that is not a POST leaves the
    whole store as it was. *)
Theorem handleInbox_store_frame
        (new_id : string) (commit : option error) (w : http.ResponseWriter)
        (r : http.Request) (db : badger.DB) :
  (http.Method r <> http.MethodPost ->
   snd (handleInbox new_id commit w r db) = db) /\
  forall key,
    key <> key_of (http.mux_Vars r "URN") new_id ->
    badger.Get key (snd (handleInbox new_id commit w r db)) = badger.Get key db.
Proof.
  assert (Hother : http.Method r <> http.MethodPost ->
                   snd (handleInbox new_id commit w r db) = db).
  { intros Hpost.
    destruct (String.eqb (http.Method r) http.MethodGet) eqn:Hget.
    - apply String.eqb_eq in Hget.
      rewrite (handleInbox_get_unfold _ _ _ _ _ Hget).
      now destruct (snd (fst (getInbox (http.mux_Vars r "URN") db))).
    - apply String.eqb_neq in Hpost. unfold handleInbox.
      now rewrite Hpost, Hget. }
  split; [exact Hother |]. intros key Hkey.
  destruct (String.eqb (http.Method r) http.MethodPost) eqn:Hpost.
  - apply String.eqb_eq in Hpost.
    destruct (json_Decode (http.Body r)) as [n | e] eqn:Hbody.
    + rewrite (handleInbox_post_unfold _ _ _ _ _ n Hpost Hbody).
      destruct (snd (fst (createNotification new_id commit
                            (http.mux_Vars r "URN") n db))) as [e |] eqn:Herr;
        [reflexivity |]. cbn [snd].
      destruct (createNotification_success _ _ _ _ _ Herr) as (b & _ & ->).
      now apply Get_SetEntry_other.
    + unfold handleInbox. now rewrite Hpost, Hbody.
  - apply String.eqb_neq in Hpost. now rewrite (Hother Hpost).
Qed.

(** X15: a GET of a notification that is stored and decodes answers
    with status 200, content type [application/ld+json] and one body,
    the encoded resource of the stored record under its public URI; the
    store is as before. *)
Theorem handleNotification_get_found
        (w : http.ResponseWriter) (r : http.Request) (db : badger.DB)
        (v : string) (n : Notification) :
  http.Method r = http.MethodGet ->
  http.wrote w = None ->
  badger.Get (key_of (http.mux_Vars r "URN") (http.mux_Vars r "ID")) db = Ok v ->
  json_Unmarshal v = Ok n ->
  http.status (fst (handleNotification w r db)) = Some 200%Z /\
  http.Header_Get "content-type" (sent (fst (handleNotification w r db)))
  = "application/ld+json" /\
  http.body (fst (handleNotification w r db))
  = (http.body w ++
     [json_Encode_LDNotification
        (mkLDNotification "https://www.w3.org/ns/activitystreams"
           (notificationURI r (http.mux_Vars r "URN") (ID n))
           "Announce" (Actor n) (Object n) (Target n) (Updated n))])%list /\
  snd (handleNotification w r db) = db.
Proof.
  intros Hget Hfresh Hstored Hv.
  rewrite (handleNotification_get_unfold _ _ _ Hget).
  rewrite (getNotification_found _ _ v n db Hstored Hv). cbn [fst snd].
  unfold makeLDNotification.
  destruct (Write_json_response
              (json_Encode_LDNotification
                 (mkLDNotification "https://www.w3.org/ns/activitystreams"
                    (notificationURI r (http.mux_Vars r "URN") (ID n))
                    "Announce" (Actor n) (Object n) (Target n) (Updated n)))
              w Hfresh) as (Hs & Hh & Hb).
  auto.
Qed.

(** X16: a GET of a notification that is not stored answers with status
    200, not 404 or 500: the body is the encoded resource of the zero
    record, whose identifier is the inbox URI followed by a slash and
    whose other fields are empty. *)
Theorem handleNotification_get_missing
        (w : http.ResponseWriter) (r : http.Request) (db : badger.DB) :
  http.Method r = http.MethodGet ->
  http.wrote w = None ->
  (forall v, ~ In (key_of (http.mux_Vars r "URN") (http.mux_Vars r "ID"), v) db) ->
  http.status (fst (handleNotification w r db)) = Some 200%Z /\
  http.body (fst (handleNotification w r db))
  = (http.body w ++
     [json_Encode_LDNotification
        (mkLDNotification "https://www.w3.org/ns/activitystreams"
           (inboxURI r (http.mux_Vars r "URN") ++ "/")
           "Announce" EmptyString EmptyString EmptyString EmptyString)])%list.
Proof.
  intros Hget Hfresh Habsent.
  rewrite (handleNotification_get_unfold _ _ _ Hget).
  apply Get_absent in Habsent.
  assert (Hzero : getNotification (http.mux_Vars r "URN") (http.mux_Vars r "ID") db
                  = ((Notification_zero, None), db)).
  { unfold getNotification, badger.View.
    fold (key_of (http.mux_Vars r "URN") (http.mux_Vars r "ID")).
    now rewrite Habsent. }
  rewrite Hzero. cbn [fst snd]. unfold makeLDNotification. simpl ID.
  rewrite <- (inboxURI_member r (http.mux_Vars r "URN") EmptyString).
  destruct (Write_json_response
              (json_Encode_LDNotification
                 (mkLDNotification "https://www.w3.org/ns/activitystreams"
                    (inboxURI r (http.mux_Vars r "URN") ++ "/" ++ EmptyString)
                    "Announce" EmptyString EmptyString EmptyString EmptyString))
              w Hfresh) as (Hs & _ & Hb).
  auto.
Qed.

(** X17: on a response that has no status yet [handleNotification]
    answers with status 200 to a GET and 404 to every other method, never
    with 500, and it leaves the store as it was. *)
Theorem handleNotification_status_and_store
        (w : http.ResponseWriter) (r : http.Request) (db : badger.DB) :
  http.wrote w = None ->
  http.status (fst (handleNotification w r db))
  = Some (if String.eqb (http.Method r) http.MethodGet then 200%Z else 404%Z) /\
  snd (handleNotification w r db) = db.
Proof.
  intros Hfresh.
  destruct (String.eqb (http.Method r) http.MethodGet) eqn:Hget.
  - apply String.eqb_eq in Hget.
    rewrite (handleNotification_get_unfold _ _ _ Hget). cbn [fst snd].
    split; [| reflexivity].
    now apply Write_json_response.
  - unfold handleNotification. rewrite Hget. simpl negb. cbv iota.
    pose proof (getNotification_error_nil (http.mux_Vars r "URN")
                  (http.mux_Vars r "ID") db) as Hnil.
    assert (Hdb : snd (getNotification (http.mux_Vars r "URN")
                                       (http.mux_Vars r "ID") db) = db).
    { unfold getNotification, badger.View.
      destruct (badger.Get _ db) as [v | e]; [| reflexivity].
      now destruct (json_Unmarshal v). }
    destruct (getNotification (http.mux_Vars r "URN") (http.mux_Vars r "ID") db)
      as [[notification err] db'].
    simpl in Hnil, Hdb. subst err db'. cbn [fst snd]. split; [| reflexivity].
    rewrite Write_status, Set_header_status, Write_status.
    + now apply WriteHeader_status.
    + rewrite (WriteHeader_status _ _ Hfresh). discriminate.
    + rewrite Set_header_status, Write_status;
        rewrite (WriteHeader_status _ _ Hfresh); discriminate.
Qed.

End HandlersMore.

Section EndToEnd.

Context {codec : JSON}.

(** X18: a notification posted to an inbox is served by the next GET of
    its member path: after a POST that created it, a GET request for the
    same inbox and the generated identifier answers with status 200 and
    the encoded resource that carries the generated identifier in its URI
    and the posted actor, object, target and updated fields. *)
Theorem post_then_get_notification
        (new_id : string) (commit : option error)
        (w w' : http.ResponseWriter) (r r' : http.Request) (db : badger.DB)
        (n : Notification) :
  http.Method r = http.MethodPost ->
  json_Decode (http.Body r) = Ok n ->
  snd (fst (createNotification new_id commit (http.mux_Vars r "URN") n db)) = None ->
  (forall b, json_Marshal (with_ID new_id n) = Ok b ->
             json_Unmarshal b = Ok (with_ID new_id n)) ->
  http.Method r' = http.MethodGet ->
  http.mux_Vars r' "URN" = http.mux_Vars r "URN" ->
  http.mux_Vars r' "ID" = new_id ->
  http.wrote w' = None ->
  http.status (fst (handleNotification w' r'
                      (snd (handleInbox new_id commit w r db)))) = Some 200%Z /\
  http.body (fst (handleNotification w' r'
                    (snd (handleInbox new_id commit w r db))))
  = (http.body w' ++
     [json_Encode_LDNotification
        (mkLDNotification "https://www.w3.org/ns/activitystreams"
           (notificationURI r' (http.mux_Vars r "URN") new_id)
           "Announce" (Actor n) (Object n) (Target n) (Updated n))])%list.
Proof.
  intros Hpost Hbody Hok Hcodec Hget Hurn Hid Hfresh.
  rewrite (handleInbox_post_unfold _ _ _ _ _ n Hpost Hbody), Hok. cbn [snd].
  destruct (createNotification_success _ _ _ _ _ Hok) as (b & Hb & ->).
  rewrite (handleNotification_get_unfold _ _ _ Hget), Hurn, Hid.
  rewrite (getNotification_found _ _ b (with_ID new_id n));
    [| apply Get_SetEntry_same | now apply Hcodec].
  cbn [fst snd]. unfold makeLDNotification. simpl.
  destruct (Write_json_response
              (json_Encode_LDNotification
                 (mkLDNotification "https://www.w3.org/ns/activitystreams"
                    (notificationURI r' (http.mux_Vars r "URN") new_id)
                    "Announce" (Actor n) (Object n) (Target n) (Updated n)))
              w' Hfresh) as (Hs & _ & Hbd).
  auto.
Qed.

End EndToEnd.

(** ** The further properties on concrete stores and requests *)

Lemma store_2_sorted : badger.sorted (Sample.store 2).
Proof. vm_compute. repeat split. Qed.

Lemma store_2_decodes (item : badger.Item) :
  In item (Sample.store 2) ->
  String.prefix "work1-" (fst item) = true ->
  exists n, decodes (codec := MiniJSON.codec) item n.
Proof.
  intros Hin _. vm_compute in Hin.
  destruct Hin as [<- | [<- | []]]; eexists; reflexivity.
Qed.

Lemma getInbox_lists_inbox_in_key_order_witness :
  exists ns,
    getInbox (codec := MiniJSON.codec) "work1" (Sample.store 2)
    = ((ns, None), Sample.store 2) /\
    List.length ns = 2.
Proof.
  destruct (@getInbox_lists_inbox_in_key_order MiniJSON.codec "work1"
              (Sample.store 2) store_2_sorted store_2_decodes)
    as (ns & Hget & _ & Hlen).
  exists ns. split; [exact Hget | exact Hlen].
Defined.

Lemma getInbox_first_bad_value_aborts_witness :
  getInbox (codec := MiniJSON.codec) "work1" Sample.store_corrupt
  = (([], Some (ErrJSON "invalid character looking for beginning of value")),
     Sample.store_corrupt).
Proof.
  apply (@getInbox_first_bad_value_aborts MiniJSON.codec "work1"
           Sample.store_corrupt
           [("work1-a", MiniJSON.marshal Sample.n1_stored)]
           ("work1-b", "not json")
           [("work1-c", MiniJSON.marshal Sample.n1_stored)]).
  - reflexivity.
  - constructor; [| constructor]. exists Sample.n1_stored. reflexivity.
  - reflexivity.
Defined.

Lemma created_record_is_listed_witness :
  exists ns,
    getInbox (codec := MiniJSON.codec) "work1"
      (snd (createNotification (codec := MiniJSON.codec) Sample.id2 None "work1"
                               Sample.n1 (Sample.store 2)))
    = ((ns, None),
       snd (createNotification (codec := MiniJSON.codec) Sample.id2 None "work1"
                               Sample.n1 (Sample.store 2))) /\
    In (with_ID Sample.id2 Sample.n1) ns.
Proof.
  apply (@created_record_is_listed MiniJSON.codec Sample.id2 None "work1"
           Sample.n1 (Sample.store 2)).
  - exact store_2_sorted.
  - exact store_2_decodes.
  - reflexivity.
  - intros b [= <-]. reflexivity.
Defined.

Lemma listed_record_is_retrievable_witness :
  exists id,
    key_of "work1" (Sample.nth_id 1) = key_of "work1" id /\
    getNotification (codec := MiniJSON.codec) "work1" id (Sample.store 2)
    = ((with_ID (Sample.nth_id 1) Sample.n1, None), Sample.store 2).
Proof.
  apply (@listed_record_is_retrievable MiniJSON.codec "work1" (Sample.store 2) 1
           (key_of "work1" (Sample.nth_id 1))
           (with_ID (Sample.nth_id 1) Sample.n1)).
  - exact store_2_sorted.
  - exists (MiniJSON.marshal (with_ID (Sample.nth_id 1) Sample.n1)).
    repeat split.
Defined.

Lemma key_of_injective_dash_free_witness :
  "urn:cts:greekLit:tlg0012" = "urn:cts:greekLit:tlg0012" /\ Sample.id1 = Sample.id1.
Proof.
  apply (key_of_injective_dash_free "urn:cts:greekLit:tlg0012"
                                    "urn:cts:greekLit:tlg0012"
                                    Sample.id1 Sample.id1);
    reflexivity.
Defined.

Lemma getInbox_isolation_dash_free_witness :
  key_of "work" Sample.id1 <> key_of "work1" Sample.id2.
Proof.
  apply (@getInbox_isolation_dash_free MiniJSON.codec "work" "work1"
           Sample.store_two 0 (key_of "work" Sample.id1) Sample.n1_stored).
  - reflexivity.
  - reflexivity.
  - discriminate.
  - exists (MiniJSON.marshal Sample.n1_stored). repeat split.
Defined.

Lemma getNotification_reads_across_inboxes_witness :
  getNotification (codec := MiniJSON.codec) "work" ("1" ++ "-" ++ Sample.id1)
    (snd (createNotification (codec := MiniJSON.codec) Sample.id1 None
                             ("work" ++ "-" ++ "1") Sample.n1 badger.empty))
  = ((with_ID Sample.id1 Sample.n1, None),
     snd (createNotification (codec := MiniJSON.codec) Sample.id1 None
                             ("work" ++ "-" ++ "1") Sample.n1 badger.empty)).
Proof.
  apply (@getNotification_reads_across_inboxes MiniJSON.codec Sample.id1 None
           "work" "1" Sample.n1 badger.empty).
  - reflexivity.
  - intros b [= <-]. reflexivity.
Defined.

Lemma handleInbox_get_lists_inbox_witness :
  http.status (fst (handleInbox (codec := MiniJSON.codec) Sample.id1 None
                      http.NewResponseWriter Sample.get_inbox (Sample.store 2)))
  = Some 200%Z /\
  snd (handleInbox (codec := MiniJSON.codec) Sample.id1 None
         http.NewResponseWriter Sample.get_inbox (Sample.store 2))
  = Sample.store 2.
Proof.
  destruct (@handleInbox_get_lists_inbox MiniJSON.codec Sample.id1 None
              http.NewResponseWriter Sample.get_inbox (Sample.store 2)
              (Sample.store 2)
              [with_ID (Sample.nth_id 0) Sample.n1;
               with_ID (Sample.nth_id 1) Sample.n1])
    as (Hs & _ & _ & Hdb); try reflexivity.
  split; [exact Hs | exact Hdb].
Defined.

Lemma handleInbox_get_failure_witness :
  http.status (fst (handleInbox (codec := MiniJSON.codec) Sample.id1 None
                      http.NewResponseWriter Sample.get_inbox Sample.store_corrupt))
  = Some 400%Z /\
  http.body (fst (handleInbox (codec := MiniJSON.codec) Sample.id1 None
                    http.NewResponseWriter Sample.get_inbox Sample.store_corrupt))
  = [("invalid character looking for beginning of value"
        ++ String "010"%char EmptyString)%string].
Proof.
  destruct (@handleInbox_get_failure MiniJSON.codec Sample.id1 None
              http.NewResponseWriter Sample.get_inbox Sample.store_corrupt
              (ErrJSON "invalid character looking for beginning of value"))
    as (Hs & _ & Hb & _); try reflexivity.
  split; [exact Hs | exact Hb].
Defined.

Lemma handleInbox_post_bad_body_witness :
  http.status (fst (handleInbox (codec := MiniJSON.codec) Sample.id1 None
                      http.NewResponseWriter Sample.post_garbage (Sample.store 1)))
  = Some 400%Z /\
  snd (handleInbox (codec := MiniJSON.codec) Sample.id1 None
         http.NewResponseWriter Sample.post_garbage (Sample.store 1))
  = Sample.store 1.
Proof.
  destruct (@handleInbox_post_bad_body MiniJSON.codec Sample.id1 None
              http.NewResponseWriter Sample.post_garbage (Sample.store 1)
              (ErrJSON "invalid character looking for beginning of value"))
    as (Hs & _ & Hdb); try reflexivity.
  split; [exact Hs | exact Hdb].
Defined.

Lemma handleInbox_post_create_failure_witness :
  http.status (fst (handleInbox (codec := MiniJSON.codec) Sample.id1
                      (Some (ErrStorage "Transaction Conflict"))
                      http.NewResponseWriter Sample.post_work1 (Sample.store 1)))
  = Some 400%Z /\
  snd (handleInbox (codec := MiniJSON.codec) Sample.id1
         (Some (ErrStorage "Transaction Conflict"))
         http.NewResponseWriter Sample.post_work1 (Sample.store 1))
  = Sample.store 1.
Proof.
  destruct (@handleInbox_post_create_failure MiniJSON.codec Sample.id1
              (Some (ErrStorage "Transaction Conflict"))
              http.NewResponseWriter Sample.post_work1 (Sample.store 1)
              Sample.n1 (ErrStorage "Transaction Conflict"))
    as (Hs & _ & Hdb); try reflexivity.
  split; [exact Hs | exact Hdb].
Defined.


Lemma handleInbox_other_method_witness :
  http.status (fst (handleInbox (codec := MiniJSON.codec) Sample.id1 None
                      http.NewResponseWriter Sample.put_inbox (Sample.store 1)))
  = Some 404%Z /\
  snd (handleInbox (codec := MiniJSON.codec) Sample.id1 None
         http.NewResponseWriter Sample.put_inbox (Sample.store 1))
  = Sample.store 1.
Proof.
  destruct (@handleInbox_other_method MiniJSON.codec Sample.id1 None
              http.NewResponseWriter Sample.put_inbox (Sample.store 1))
    as (Hs & _ & Hdb); try reflexivity; try discriminate.
  split; [exact Hs | exact Hdb].
Defined.

Lemma handleInbox_store_frame_witness :
  badger.Get (key_of "work1" (Sample.nth_id 0))
    (snd (handleInbox (codec := MiniJSON.codec) Sample.id1 None
            http.NewResponseWriter Sample.post_work1 (Sample.store 1)))
  = badger.Get (key_of "work1" (Sample.nth_id 0)) (Sample.store 1) /\
  snd (handleInbox (codec := MiniJSON.codec) Sample.id1 None
         http.NewResponseWriter Sample.get_inbox (Sample.store 1))
  = Sample.store 1.
Proof.
  split.
  - apply (proj2 (@handleInbox_store_frame MiniJSON.codec Sample.id1 None
                    http.NewResponseWriter Sample.post_work1 (Sample.store 1))).
    vm_compute. discriminate.
  - apply (proj1 (@handleInbox_store_frame MiniJSON.codec Sample.id1 None
                    http.NewResponseWriter Sample.get_inbox (Sample.store 1))).
    discriminate.
Defined.

Lemma handleNotification_get_found_witness :
  http.status (fst (handleNotification (codec := MiniJSON.codec)
                      http.NewResponseWriter Sample.get_one (Sample.store 1)))
  = Some 200%Z /\
  http.body (fst (handleNotification (codec := MiniJSON.codec)
                    http.NewResponseWriter Sample.get_one (Sample.store 1)))
  = [MiniJSON.encode_notification
       (mkLDNotification "https://www.w3.org/ns/activitystreams"
          (notificationURI Sample.get_one "work1" (Sample.nth_id 0))
          "Announce" "u1" "o1" "t1" "2024-01-01")].
Proof.
  destruct (@handleNotification_get_found MiniJSON.codec
              http.NewResponseWriter Sample.get_one (Sample.store 1)
              (MiniJSON.marshal (with_ID (Sample.nth_id 0) Sample.n1))
              (with_ID (Sample.nth_id 0) Sample.n1))
    as (Hs & _ & Hb & _); try reflexivity.
  split; [exact Hs | exact Hb].
Defined.

Lemma handleNotification_get_missing_witness :
  http.status (fst (handleNotification (codec := MiniJSON.codec)
                      http.NewResponseWriter Sample.get_missing (Sample.store 1)))
  = Some 200%Z /\
  http.body (fst (handleNotification (codec := MiniJSON.codec)
                    http.NewResponseWriter Sample.get_missing (Sample.store 1)))
  = [MiniJSON.encode_notification
       (mkLDNotification "https://www.w3.org/ns/activitystreams"
          "http://example.org/texts/work1/inbox/"
          "Announce" EmptyString EmptyString EmptyString EmptyString)].
Proof.
  apply (@handleNotification_get_missing MiniJSON.codec
           http.NewResponseWriter Sample.get_missing (Sample.store 1)).
  - reflexivity.
  - reflexivity.
  - intros v Hin. vm_compute in Hin. destruct Hin as [[=] | []].
Defined.

Lemma handleNotification_status_and_store_witness :
  http.status (fst (handleNotification (codec := MiniJSON.codec)
                      http.NewResponseWriter Sample.delete_one (Sample.store 1)))
  = Some 404%Z /\
  snd (handleNotification (codec := MiniJSON.codec)
         http.NewResponseWriter Sample.delete_one (Sample.store 1))
  = Sample.store 1.
Proof.
  apply (@handleNotification_status_and_store MiniJSON.codec
           http.NewResponseWriter Sample.delete_one (Sample.store 1)).
  reflexivity.
Defined.

Lemma post_then_get_notification_witness :
  http.status
    (fst (handleNotification (codec := MiniJSON.codec) http.NewResponseWriter
            (http.mkRequest "GET" "example.org" EmptyString
                            [("URN", "work1"); ("ID", Sample.id1)])
            (snd (handleInbox (codec := MiniJSON.codec) Sample.id1 None
                    http.NewResponseWriter Sample.post_work1 badger.empty))))
  = Some 200%Z /\
  http.body
    (fst (handleNotification (codec := MiniJSON.codec) http.NewResponseWriter
            (http.mkRequest "GET" "example.org" EmptyString
                            [("URN", "work1"); ("ID", Sample.id1)])
            (snd (handleInbox (codec := MiniJSON.codec) Sample.id1 None
                    http.NewResponseWriter Sample.post_work1 badger.empty))))
  = [MiniJSON.encode_notification
       (mkLDNotification "https://www.w3.org/ns/activitystreams"
          "http://example.org/texts/work1/inbox/6ba7b810-9dad-41d1-80b4-00c04fd430c8"
          "Announce" "u1" "o1" "t1" "2024-01-01")].
Proof.
  apply (@post_then_get_notification MiniJSON.codec Sample.id1 None
           http.NewResponseWriter http.NewResponseWriter Sample.post_work1
           (http.mkRequest "GET" "example.org" EmptyString
                           [("URN", "work1"); ("ID", Sample.id1)])
           badger.empty Sample.n1); try reflexivity.
  intros b [= <-]. reflexivity.
Defined.

(** * Inboxes that were never written *)

Section NeverWritten.

Context {codec : JSON}.

(** The keys of a store built by a history of creations are the keys it
    started with and the composite keys of the creations. *)
Lemma create_each_In (history : list creation) :
  forall (db : badger.DB) (k v : string),
    In (k, v) (create_each history db) ->
    In (k, v) db \/
    exists c, In c history /\ k = key_of (to_inbox c) (generated c).
Proof.
  induction history as [| c rest IH]; intros db k v Hin; simpl in Hin.
  - now left.
  - apply IH in Hin as [Hin | (c' & Hc' & ->)].
    + destruct (createNotification_writes_once (generated c) (verdict c)
                  (to_inbox c) (posted c) db) as [Hdb | [b Hdb]];
        rewrite Hdb in Hin.
      * now left.
      * apply SetEntry_In in Hin as [-> | Hin]; [| now left].
        right. exists c. split; [now left | reflexivity].
    + right. exists c'. split; [now right | reflexivity].
Qed.

(** C8, amended: after any history of creations from the empty store
    none of which wrote a key that starts with the inbox identifier and
    the separator (so that nothing was written under this inbox, nor under
    an inbox whose key carries its prefix), [getInbox] returns the empty
    sequence and the nil error. *)
Theorem getInbox_never_written_inbox (inboxID : string) (history : list creation) :
  (forall c, In c history ->
             String.prefix (inboxID ++ "-")
                           (key_of (to_inbox c) (generated c)) = false) ->
  getInbox inboxID (create_each history badger.empty)
  = (([], None), create_each history badger.empty).
Proof.
  intros Hhistory. apply getInbox_nothing_scanned, scanned_nil.
  intros k v Hin. apply create_each_In in Hin as [[] | (c & Hc & ->)].
  now apply Hhistory.
Qed.

(** For identifiers that hold no separator the condition is that no
    creation was made in this inbox. *)
Lemma getInbox_never_written_dash_free (inboxID : string) (history : list creation) :
  no_dash inboxID = true ->
  (forall c, In c history ->
             to_inbox c <> inboxID /\ no_dash (to_inbox c) = true) ->
  getInbox inboxID (create_each history badger.empty)
  = (([], None), create_each history badger.empty).
Proof.
  intros Hfree Hhistory. apply getInbox_nothing_scanned, scanned_nil.
  intros k v Hin. apply create_each_In in Hin as [[] | (c & Hc & ->)].
  destruct (Hhistory c Hc) as [Hne Hc_free].
  destruct (String.prefix (inboxID ++ "-") (key_of (to_inbox c) (generated c)))
    eqn:Hp; [| reflexivity].
  exfalso. apply Hne. symmetry.
  now apply (dash_free_prefix inboxID (to_inbox c) (generated c)).
Qed.

End NeverWritten.

(** Nothing was ever created in inbox [work], one notification was
    created in inbox [work-1], and [getInbox] of [work] returns that
    record: the claim of C8 as stated fails. *)
Lemma getInbox_unwritten_inbox_lists_record :
  create_each (codec := MiniJSON.codec)
              [mkCreation "work-1" Sample.id1 None Sample.n1] badger.empty
  = Sample.store_work_1 /\
  "work-1" <> "work" /\
  getInbox (codec := MiniJSON.codec) "work" Sample.store_work_1
  = (([Sample.n1_stored], None), Sample.store_work_1) /\
  ~ (forall (inboxID : string) (history : list creation),
        (forall c, In c history -> to_inbox c <> inboxID) ->
        getInbox (codec := MiniJSON.codec) inboxID
                 (create_each (codec := MiniJSON.codec) history badger.empty)
        = (([], None),
           create_each (codec := MiniJSON.codec) history badger.empty)).
Proof.
  split; [reflexivity |]. split; [discriminate |]. split; [reflexivity |].
  intros Hclaim.
  specialize (Hclaim "work" [mkCreation "work-1" Sample.id1 None Sample.n1]).
  assert (Hlist : getInbox (codec := MiniJSON.codec) "work"
                    (create_each (codec := MiniJSON.codec)
                       [mkCreation "work-1" Sample.id1 None Sample.n1]
                       badger.empty)
                  = (([Sample.n1_stored], None), Sample.store_work_1))
    by reflexivity.
  rewrite Hclaim in Hlist; [discriminate |].
  intros c [<- | []]. discriminate.
Qed.

Lemma getInbox_never_written_inbox_witness :
  getInbox (codec := MiniJSON.codec) "work"
    (create_each (codec := MiniJSON.codec)
       [mkCreation "work1" Sample.id1 None Sample.n1;
        mkCreation "other" Sample.id2 None Sample.n1] badger.empty)
  = (([], None),
     create_each (codec := MiniJSON.codec)
       [mkCreation "work1" Sample.id1 None Sample.n1;
        mkCreation "other" Sample.id2 None Sample.n1] badger.empty).
Proof.
  apply (@getInbox_never_written_inbox MiniJSON.codec "work"
           [mkCreation "work1" Sample.id1 None Sample.n1;
            mkCreation "other" Sample.id2 None Sample.n1]).
  intros c [<- | [<- | []]]; reflexivity.
Defined.
